(** * Backslash Escape: escapeString, unescapeString, countEscapedCharacters

    A shallow embedding of [src/index.ts].  A JavaScript string is a
    sequence of UTF-16 code units, and the three functions index it unit
    by unit ([str[i]], [charCodeAt(0)], [str.length], [substring]), so a
    string is modelled as a list of code units, each an integer in
    [0, 65535]. *)

From Stdlib Require Import String Ascii ZArith List Lia Bool.
Import ListNotations.
Open Scope Z_scope.

(** ** Strings and characters *)

Definition jsstring := list Z.

(** A value of JavaScript's string type: every unit is a 16-bit number. *)
Definition is_code_unit (u : Z) : Prop := 0 <= u < 65536.
Definition wf_string (s : jsstring) : Prop := Forall is_code_unit s.

(** An ASCII literal of the source, as code units.  A Rocq string has no
    escape sequences: each backslash written inside [lit] is one backslash
    character.  So [lit "\n"] is the two characters backslash and n, which
    the source writes with a doubled backslash. *)
Definition lit (s : string) : jsstring :=
  map (fun a => Z.of_N (N_of_ascii a)) (list_ascii_of_string s).

Definition BACKSLASH : Z := 92.
Definition NEWLINE : Z := 10.
Definition CARRIAGE_RETURN : Z := 13.
Definition TAB : Z := 9.
Definition BACKSPACE : Z := 8.
Definition FORM_FEED : Z := 12.
Definition DOUBLE_QUOTE : Z := 34.
Definition SINGLE_QUOTE : Z := 39.

(** [str[i]] and [str.substring(from, to)] for indices inside the string;
    every use in the source is guarded by a comparison with [str.length]. *)
Definition charAt (str : jsstring) (i : nat) : Z := nth i str 0.

Definition substring (str : jsstring) (from to : nat) : jsstring :=
  let lo := Nat.min from to in
  let hi := Nat.max from to in
  firstn (hi - lo) (skipn lo str).

(** ** The JavaScript built-ins the source calls *)

(** One digit of [Number.prototype.toString(16)]: 0-9, then a-f. *)
Definition hexDigitChar (d : Z) : Z := if d <? 10 then 48 + d else 87 + d.

Fixpoint toHexDigits (fuel : nat) (n : Z) (acc : jsstring) : jsstring :=
  match fuel with
  | O => acc
  | S fuel' =>
      if n <? 16 then hexDigitChar n :: acc
      else toHexDigits fuel' (n / 16) (hexDigitChar (n mod 16) :: acc)
  end.

(** [n.toString(16)] for an integer [n]: lowercase digits, most significant
    first, a minus sign for a negative number.  The rounds allowed are one
    more than the binary logarithm, more than the hex digits there are
    (see [toString16_hexFixed]). *)
Definition toString16 (n : Z) : jsstring :=
  if n <? 0 then 45 :: toHexDigits (S (Z.to_nat (Z.log2 (- n)))) (- n) []
  else toHexDigits (S (Z.to_nat (Z.log2 n))) n [].

(** [s.padStart(targetLength, pad)] for a one-character [pad]. *)
Definition padStart (targetLength : nat) (pad : Z) (s : jsstring) : jsstring :=
  repeat pad (targetLength - length s) ++ s.

Definition ZERO_CHAR : Z := 48.

Definition isHexDigit (ch : Z) : bool :=
  ((48 <=? ch) && (ch <=? 57))
  || ((97 <=? ch) && (ch <=? 102))
  || ((65 <=? ch) && (ch <=? 70)).

Definition hexValue (ch : Z) : option Z :=
  if (48 <=? ch) && (ch <=? 57) then Some (ch - 48)
  else if (97 <=? ch) && (ch <=? 102) then Some (ch - 87)
  else if (65 <=? ch) && (ch <=? 70) then Some (ch - 55)
  else None.

(** [/^[0-9a-fA-F]+$/.test(s)]: without the [m] flag [$] is the end of the
    input, so the test asks for a non-empty string of hex digits. *)
Definition test_hex_plus (s : jsstring) : bool :=
  negb (Nat.eqb (length s) 0) && forallb isHexDigit s.

(** [/^[0-9a-fA-F]{2}$/.test(s)]: exactly two hex digits. *)
Definition test_hex_2 (s : jsstring) : bool :=
  Nat.eqb (length s) 2 && forallb isHexDigit s.

Fixpoint parseHexDigits (s : jsstring) (acc : Z) : Z :=
  match s with
  | [] => acc
  | ch :: rest =>
      match hexValue ch with
      | Some v => parseHexDigits rest (acc * 16 + v)
      | None => acc
      end
  end.

(** [parseInt(s, 16)] on the strings the source passes to it.  Both calls
    sit behind one of the two regular expressions above, which admit hex
    digits only, so the white space, sign and [0x] prefix that [parseInt]
    also accepts never reach it; they are not modelled.  The digits are
    read up to the first character that is not one; [None] is NaN. *)
Definition parseInt16 (s : jsstring) : option Z :=
  match s with
  | [] => None
  | ch :: _ =>
      match hexValue ch with
      | Some _ => Some (parseHexDigits s 0)
      | None => None
      end
  end.

(** What a call can end in: a value, or a thrown exception. *)
Inductive exn : Type := RangeError.

Inductive completion (A : Type) : Type :=
| Normal (a : A)
| Throw (e : exn).
Arguments Normal {A} a.
Arguments Throw {A} e.

(** [String.fromCodePoint(code)]: RangeError unless [code] is an integer
    in [0, 0x10FFFF]; one unit up to 0xFFFF, a surrogate pair above. *)
Definition fromCodePoint (code : option Z) : completion jsstring :=
  match code with
  | None => Throw RangeError
  | Some cp =>
      if (cp <? 0) || (0x10FFFF <? cp) then Throw RangeError
      else if cp <=? 0xFFFF then Normal [cp]
      else Normal [(cp - 0x10000) / 0x400 + 0xD800;
                   (cp - 0x10000) mod 0x400 + 0xDC00]
  end.

(** [String.fromCharCode(code)]: the argument is taken modulo [2^16], NaN
    as 0; it never throws. *)
Definition fromCharCode (code : option Z) : jsstring :=
  match code with
  | None => [0]
  | Some n => [n mod 65536]
  end.

(** ** escapeString *)

(** Modelled from the spec: the type [EscapeStyle] is used by
    [escapeString] but declared outside [src/index.ts]; the spec gives it
    as the enumeration of json, javascript, python and c. *)
Inductive EscapeStyle : Type :=
| style_json
| style_javascript
| style_python
| style_c.

Definition style_eqb (a b : EscapeStyle) : bool :=
  match a, b with
  | style_json, style_json
  | style_javascript, style_javascript
  | style_python, style_python
  | style_c, style_c => true
  | _, _ => false
  end.

(** The body of the [for] loop of [escapeString]: what is appended to
    [result] for the unit [char = str[i]], with [code = char.charCodeAt(0)]. *)
Definition escape_char (style : EscapeStyle) (char : Z) : jsstring :=
  let code := char in
  if char =? BACKSLASH then lit "\\"
  else if char =? NEWLINE then lit "\n"
  else if char =? CARRIAGE_RETURN then lit "\r"
  else if char =? TAB then lit "\t"
  else if char =? BACKSPACE then lit "\b"
  else if char =? FORM_FEED then lit "\f"
  else if char =? DOUBLE_QUOTE then [BACKSLASH; DOUBLE_QUOTE]
  else if char =? SINGLE_QUOTE then
    if style_eqb style style_python || style_eqb style style_c
    then lit "\'"
    else [char]
  else if (code <? 32) || (126 <? code) then
    if style_eqb style style_json || style_eqb style style_javascript then
      if code <? 0x10000 then
        lit "\u" ++ padStart 4 ZERO_CHAR (toString16 code)
      else
        let high := (code - 0x10000) / 0x400 + 0xD800 in
        let low := Z.rem (code - 0x10000) 0x400 + 0xDC00 in
        (lit "\u" ++ padStart 4 ZERO_CHAR (toString16 high))
        ++ (lit "\u" ++ padStart 4 ZERO_CHAR (toString16 low))
    else if style_eqb style style_python then
      if code <? 0x10000 then
        lit "\u" ++ padStart 4 ZERO_CHAR (toString16 code)
      else
        lit "\U" ++ padStart 8 ZERO_CHAR (toString16 code)
    else if style_eqb style style_c then
      if code <? 256 then
        lit "\x" ++ padStart 2 ZERO_CHAR (toString16 code)
      else
        lit "\u" ++ padStart 4 ZERO_CHAR (toString16 code)
    else []
  else [char].

(** [for (let i = 0; i < str.length; i++) { ... result += ... }]. *)
Definition escapeString (str : jsstring) (style : EscapeStyle) : jsstring :=
  fold_left (fun result char => result ++ escape_char style char) str [].

(** ** unescapeString *)

(** One round of the [while] loop at cursor [i]: the text appended to
    [result] and the new cursor, or the exception that leaves the loop. *)
Definition unescape_step (str : jsstring) (i : nat)
  : completion (jsstring * nat) :=
  if (charAt str i =? BACKSLASH) && (i + 1 <? length str)%nat then
    let next := charAt str (i + 1) in
    if next =? BACKSLASH then Normal ([BACKSLASH], (i + 2)%nat)
    else if next =? 110 (* n *) then Normal ([NEWLINE], (i + 2)%nat)
    else if next =? 114 (* r *) then Normal ([CARRIAGE_RETURN], (i + 2)%nat)
    else if next =? 116 (* t *) then Normal ([TAB], (i + 2)%nat)
    else if next =? 98 (* b *) then Normal ([BACKSPACE], (i + 2)%nat)
    else if next =? 102 (* f *) then Normal ([FORM_FEED], (i + 2)%nat)
    else if next =? DOUBLE_QUOTE then Normal ([DOUBLE_QUOTE], (i + 2)%nat)
    else if next =? SINGLE_QUOTE then Normal ([SINGLE_QUOTE], (i + 2)%nat)
    else if (next =? 117) || (next =? 85) (* u, U *) then
      let isLong := next =? 85 in
      let hexLength := if isLong then 8%nat else 4%nat in
      if (i + 2 + hexLength <=? length str)%nat then
        let hexCode := substring str (i + 2) (i + 2 + hexLength) in
        if test_hex_plus hexCode then
          let code := parseInt16 hexCode in
          match fromCodePoint code with
          | Normal s => Normal (s, (i + 2 + hexLength)%nat)
          | Throw e => Throw e
          end
        else Normal ([charAt str i], (i + 1)%nat)
      else Normal ([charAt str i], (i + 1)%nat)
    else if next =? 120 (* x *) then
      if (i + 3 <? length str)%nat then
        let hexCode := substring str (i + 2) (i + 4) in
        if test_hex_2 hexCode then
          Normal (fromCharCode (parseInt16 hexCode), (i + 4)%nat)
        else Normal ([charAt str i], (i + 1)%nat)
      else Normal ([charAt str i], (i + 1)%nat)
    else Normal ([charAt str i], (i + 1)%nat)
  else Normal ([charAt str i], (i + 1)%nat).

(** [while (i < str.length) { ... }], at most [fuel] rounds; [None] when
    the rounds run out before the loop is left. *)
Fixpoint unescape_loop (fuel : nat) (str : jsstring) (i : nat)
  (result : jsstring) : option (completion jsstring) :=
  if (i <? length str)%nat then
    match fuel with
    | O => None
    | S fuel' =>
        match unescape_step str i with
        | Normal (out, i') => unescape_loop fuel' str i' (result ++ out)
        | Throw e => Some (Throw e)
        end
    end
  else Some (Normal result).

(** Every round moves the cursor forward, so [str.length] rounds are
    enough (see [unescapeString_total]). *)
Definition unescapeString (str : jsstring) : option (completion jsstring) :=
  unescape_loop (length str) str 0 [].

(** ** countEscapedCharacters *)

(** The condition of the [if] in the loop of [countEscapedCharacters]. *)
Definition counted (char : Z) : bool :=
  let code := char in
  (char =? BACKSLASH) || (char =? NEWLINE) || (char =? CARRIAGE_RETURN)
  || (char =? TAB) || (char =? BACKSPACE) || (char =? FORM_FEED)
  || (char =? DOUBLE_QUOTE) || (char =? SINGLE_QUOTE)
  || (code <? 32) || (126 <? code).

Definition countEscapedCharacters (str : jsstring) : nat :=
  fold_left (fun count char => if counted char then S count else count)
    str O.

(** ** Notions the statements are written with *)

Definition printable (ch : Z) : Prop := 32 <= ch <= 126.

(** [n] written with exactly [width] lowercase hex digits, zero-padded. *)
Fixpoint hexFixed (width : nat) (n : Z) : jsstring :=
  match width with
  | O => []
  | S w => hexFixed w (n / 16) ++ [hexDigitChar (n mod 16)]
  end.

(** The string holding the single code point [cp], as the engine stores
    it: one unit, or a surrogate pair beyond the Basic Multilingual Plane. *)
Definition utf16 (cp : Z) : jsstring :=
  match fromCodePoint (Some cp) with
  | Normal s => s
  | Throw _ => []
  end.

(** Printable ASCII other than the backslash and the two quotes. *)
Definition plain_char (ch : Z) : Prop :=
  printable ch /\ ch <> BACKSLASH /\ ch <> DOUBLE_QUOTE /\ ch <> SINGLE_QUOTE.

Definition beyond_BMP (cp : Z) : Prop := 0x10000 <= cp <= 0x10FFFF.

Definition high_surrogate (cp : Z) : Z := (cp - 0x10000) / 0x400 + 0xD800.
Definition low_surrogate (cp : Z) : Z := (cp - 0x10000) mod 0x400 + 0xDC00.

Definition emits_itself (style : EscapeStyle) (ch : Z) : bool :=
  if list_eq_dec Z.eq_dec (escape_char style ch) [ch] then true else false.

Definition quote_left_alone (style : EscapeStyle) : bool :=
  style_eqb style style_json || style_eqb style style_javascript.

(** The characters that [unescapeString] knows after a backslash:
    backslash, n, r, t, b, f, the two quotes, u, U and x. *)
Definition is_escape_letter (ch : Z) : bool :=
  (ch =? BACKSLASH) || (ch =? 110) || (ch =? 114) || (ch =? 116)
  || (ch =? 98) || (ch =? 102) || (ch =? DOUBLE_QUOTE)
  || (ch =? SINGLE_QUOTE) || (ch =? 117) || (ch =? 85) || (ch =? 120).

(** [n] hex digits stand at [from]: the string is long enough and none of
    the [n] characters is anything else. *)
Definition hex_run (str : jsstring) (from n : nat) : bool :=
  (from + n <=? length str)%nat
  && forallb isHexDigit (substring str from (from + n)).

(** The backslash at cursor [i] starts no escape: it is the last
    character, or an unknown letter follows, or [x], [u] or [U] follows
    without its two, four or eight hex digits. *)
Inductive malformed (str : jsstring) (i : nat) : Prop :=
| lone_backslash :
    charAt str i = BACKSLASH -> (i + 1 = length str)%nat -> malformed str i
| unknown_letter :
    charAt str i = BACKSLASH -> (i + 1 < length str)%nat ->
    is_escape_letter (charAt str (i + 1)) = false -> malformed str i
| broken_x :
    charAt str i = BACKSLASH -> (i + 1 < length str)%nat ->
    charAt str (i + 1) = 120 -> hex_run str (i + 2) 2 = false ->
    malformed str i
| broken_u :
    charAt str i = BACKSLASH -> (i + 1 < length str)%nat ->
    charAt str (i + 1) = 117 -> hex_run str (i + 2) 4 = false ->
    malformed str i
| broken_U :
    charAt str i = BACKSLASH -> (i + 1 < length str)%nat ->
    charAt str (i + 1) = 85 -> hex_run str (i + 2) 8 = false ->
    malformed str i.

(** [p] put in front of the string that a call returned; an exception
    stays what it is. *)
Definition prepend (p : jsstring) (o : option (completion jsstring))
  : option (completion jsstring) :=
  match o with
  | Some (Normal r) => Some (Normal (p ++ r))
  | Some (Throw e) => Some (Throw e)
  | None => None
  end.

(** The letter U, which starts the eight-digit escape. *)
Definition LETTER_U : Z := 85.

(** The characters (code points) of a string, as the string iterator of
    JavaScript gives them: a high surrogate directly followed by a low
    surrogate is one character of two units, any other unit is a character
    by itself. *)
Definition is_high_surrogate (u : Z) : bool := (0xD800 <=? u) && (u <=? 0xDBFF).
Definition is_low_surrogate (u : Z) : bool := (0xDC00 <=? u) && (u <=? 0xDFFF).

Fixpoint characters (s : jsstring) : list jsstring :=
  match s with
  | [] => []
  | u :: rest =>
      match rest with
      | v :: rest' =>
          if is_high_surrogate u && is_low_surrogate v
          then [u; v] :: characters rest'
          else [u] :: characters rest
      | [] => [[u]]
      end
  end.

(** How many characters of [s] escapeString replaces by something else. *)
Definition altered_characters (style : EscapeStyle) (s : jsstring) : nat :=
  length
    (filter
       (fun chr =>
          if list_eq_dec Z.eq_dec (escapeString chr style) chr
          then false else true)
       (characters s)).

Definition advance (k : nat) (r : completion (jsstring * nat))
  : completion (jsstring * nat) :=
  match r with
  | Normal (out, i) => Normal (out, (k + i)%nat)
  | Throw e => Throw e
  end.

(** * Proofs *)

(** ** Hex digits *)

Lemma hex_digit_cases (d : Z) :
  0 <= d < 16 ->
  d = 0 \/ d = 1 \/ d = 2 \/ d = 3 \/ d = 4 \/ d = 5 \/ d = 6 \/ d = 7 \/
  d = 8 \/ d = 9 \/ d = 10 \/ d = 11 \/ d = 12 \/ d = 13 \/ d = 14 \/ d = 15.
Proof. lia. Qed.

Ltac each_hex_digit d H :=
  let C := fresh "C" in
  pose proof (hex_digit_cases d H) as C;
  repeat (destruct C as [C | C]; [subst d | ]); [ .. | subst d].

Lemma hexDigitChar_isHexDigit (d : Z) :
  0 <= d < 16 -> isHexDigit (hexDigitChar d) = true.
Proof. intros H. each_hex_digit d H; reflexivity. Qed.

Lemma hexValue_hexDigitChar (d : Z) :
  0 <= d < 16 -> hexValue (hexDigitChar d) = Some d.
Proof. intros H. each_hex_digit d H; reflexivity. Qed.

Lemma hexDigitChar_printable (d : Z) :
  0 <= d < 16 -> printable (hexDigitChar d).
Proof. intros H. unfold printable. each_hex_digit d H; cbv; intuition discriminate. Qed.

(** ** toString(16) *)

Lemma toHexDigits_small fuel n acc :
  n < 16 -> toHexDigits (S fuel) n acc = hexDigitChar n :: acc.
Proof. intros H. simpl. destruct (Z.ltb_spec n 16); [reflexivity | lia]. Qed.

Lemma toHexDigits_large fuel n acc :
  16 <= n ->
  toHexDigits (S fuel) n acc
  = toHexDigits fuel (n / 16) (hexDigitChar (n mod 16) :: acc).
Proof. intros H. simpl. destruct (Z.ltb_spec n 16); [lia | reflexivity]. Qed.

(** The digits come out as [hexFixed] writes them, whenever the rounds
    allowed are at least the number of digits. *)
Lemma toHexDigits_hexFixed width :
  forall fuel n acc,
    (width <= fuel)%nat -> 0 <= n ->
    (width <> O -> 16 ^ Z.of_nat width <= n) ->
    n < 16 ^ Z.of_nat (S width) ->
    toHexDigits (S fuel) n acc = hexFixed (S width) n ++ acc.
Proof.
  induction width as [| w IH]; intros fuel n acc Hf Hn Hlo Hhi.
  - change (16 ^ Z.of_nat 1) with 16 in Hhi.
    rewrite toHexDigits_small by lia. simpl.
    rewrite Z.mod_small by lia. reflexivity.
  - destruct fuel as [| fuel]; [lia |].
    specialize (Hlo ltac:(discriminate)).
    assert (E : 16 ^ Z.of_nat (S w) = 16 * 16 ^ Z.of_nat w).
    { rewrite Nat2Z.inj_succ, Z.pow_succ_r by lia. reflexivity. }
    assert (E' : 16 ^ Z.of_nat (S (S w)) = 16 * 16 ^ Z.of_nat (S w)).
    { rewrite (Nat2Z.inj_succ (S w)), Z.pow_succ_r by lia. reflexivity. }
    assert (P : 0 < 16 ^ Z.of_nat w) by (apply Z.pow_pos_nonneg; lia).
    rewrite toHexDigits_large by lia.
    rewrite IH.
    + change (hexFixed (S (S w)) n)
        with (hexFixed (S w) (n / 16) ++ [hexDigitChar (n mod 16)]).
      rewrite <- app_assoc. reflexivity.
    + lia.
    + apply Z.div_pos; lia.
    + intros _. apply Z.div_le_lower_bound; lia.
    + apply Z.div_lt_upper_bound; lia.
Qed.

Lemma pow16_pow2 (k : Z) : 0 <= k -> 16 ^ k = 2 ^ (4 * k).
Proof. intros H. rewrite Z.pow_mul_r by lia. reflexivity. Qed.

(** The rounds [toString16] allows are enough: a non-negative [n] comes
    out with all its digits, the first of them not a zero unless [n = 0]. *)
Lemma toString16_hexFixed (n : Z) :
  0 <= n ->
  exists k : nat,
    toString16 n = hexFixed (S k) n
    /\ (k <> O -> 16 ^ Z.of_nat k <= n)
    /\ n < 16 ^ Z.of_nat (S k).
Proof.
  intros Hn. unfold toString16.
  destruct (Z.ltb_spec n 0) as [? | _]; [lia |].
  set (L := Z.log2 n).
  assert (HL : 0 <= L) by apply Z.log2_nonneg.
  assert (Hk : 0 <= L / 4) by (apply Z.div_pos; lia).
  assert (Hlo : Z.to_nat (L / 4) <> O -> 16 ^ Z.of_nat (Z.to_nat (L / 4)) <= n).
  { intros Hne. rewrite Z2Nat.id by lia. rewrite pow16_pow2 by lia.
    assert (0 < n).
    { destruct (Z.eq_dec n 0) as [-> | ]; [| lia].
      exfalso. apply Hne. reflexivity. }
    transitivity (2 ^ L).
    - apply Z.pow_le_mono_r; [lia |].
      pose proof (Z.mul_div_le L 4 ltac:(lia)). lia.
    - apply Z.log2_spec. assumption. }
  assert (Hhi : n < 16 ^ Z.of_nat (S (Z.to_nat (L / 4)))).
  { rewrite Nat2Z.inj_succ, Z2Nat.id by lia. rewrite pow16_pow2 by lia.
    destruct (Z.eq_dec n 0) as [-> | Hne].
    - apply Z.pow_pos_nonneg; lia.
    - apply Z.lt_le_trans with (2 ^ Z.succ L).
      + apply Z.log2_spec. lia.
      + apply Z.pow_le_mono_r; [lia |].
        pose proof (Z.div_mod L 4 ltac:(lia)).
        pose proof (Z.mod_pos_bound L 4 ltac:(lia)). lia. }
  exists (Z.to_nat (L / 4)). split; [| split]; try assumption.
  rewrite <- (app_nil_r (hexFixed _ n)).
  apply toHexDigits_hexFixed; try assumption.
  apply Z2Nat.inj_le; try lia.
  pose proof (Z.div_mod L 4 ltac:(lia)).
  pose proof (Z.mod_pos_bound L 4 ltac:(lia)). lia.
Qed.

Lemma toString16_negative (n : Z) :
  0 < n -> toString16 (- n) = 45 :: toString16 n.
Proof.
  intros H. unfold toString16.
  destruct (Z.ltb_spec (- n) 0); [| lia].
  destruct (Z.ltb_spec n 0); [lia |].
  rewrite Z.opp_involutive. reflexivity.
Qed.

Lemma hexFixed_length width : forall n, length (hexFixed width n) = width.
Proof.
  induction width as [| w IH]; intros n; simpl; [reflexivity |].
  rewrite length_app, IH. simpl. lia.
Qed.

(** Leading zeros: a number below [16^w] written with [j] digits more. *)
Lemma hexFixed_leading_zeros (j w : nat) :
  forall n, 0 <= n < 16 ^ Z.of_nat w ->
    hexFixed (j + w) n = repeat ZERO_CHAR j ++ hexFixed w n.
Proof.
  induction w as [| w IH]; intros n Hn.
  - change (16 ^ Z.of_nat 0) with 1 in Hn. assert (n = 0) by lia. subst n.
    rewrite Nat.add_0_r, app_nil_r. clear Hn.
    induction j as [| j IHj]; [reflexivity |].
    simpl hexFixed. change (0 / 16) with 0. rewrite IHj.
    change (hexDigitChar (0 mod 16)) with ZERO_CHAR.
    rewrite <- repeat_cons. reflexivity.
  - replace (j + S w)%nat with (S (j + w)) by lia. simpl hexFixed.
    rewrite IH.
    + rewrite app_assoc. reflexivity.
    + rewrite Nat2Z.inj_succ, Z.pow_succ_r in Hn by lia.
      split; [apply Z.div_pos; lia | apply Z.div_lt_upper_bound; lia].
Qed.

(** [padStart] after [toString(16)] gives the fixed-width form. *)
Lemma padStart_toString16 (width : nat) (n : Z) :
  0 <= n < 16 ^ Z.of_nat width -> width <> O ->
  padStart width ZERO_CHAR (toString16 n) = hexFixed width n.
Proof.
  intros Hn Hw.
  destruct (toString16_hexFixed n (proj1 Hn)) as (k & E & Hlo & Hhi).
  rewrite E. unfold padStart. rewrite hexFixed_length.
  assert (Hk : (S k <= width)%nat).
  { destruct k as [| k]; [lia |]. specialize (Hlo ltac:(discriminate)).
    assert (16 ^ Z.of_nat (S k) < 16 ^ Z.of_nat width) by lia.
    apply Z.pow_lt_mono_r_iff in H; lia. }
  replace width with ((width - S k) + S k)%nat at 2 by lia.
  symmetry. apply hexFixed_leading_zeros.
  split; [lia | assumption].
Qed.

Lemma hexFixed_isHexDigit width : forall n,
  forallb isHexDigit (hexFixed width n) = true.
Proof.
  induction width as [| w IH]; intros n; simpl; [reflexivity |].
  rewrite forallb_app, IH. simpl.
  rewrite hexDigitChar_isHexDigit by (apply Z.mod_pos_bound; lia).
  reflexivity.
Qed.

Lemma parseHexDigits_app (a b : jsstring) :
  forallb isHexDigit a = true ->
  forall acc, parseHexDigits (a ++ b) acc = parseHexDigits b (parseHexDigits a acc).
Proof.
  induction a as [| ch a IH]; intros Ha acc; simpl; [reflexivity |].
  simpl in Ha. apply andb_prop in Ha as [Hch Ha].
  unfold isHexDigit in Hch. unfold hexValue.
  destruct ((48 <=? ch) && (ch <=? 57)); [apply IH; assumption |].
  destruct ((97 <=? ch) && (ch <=? 102)); [apply IH; assumption |].
  destruct ((65 <=? ch) && (ch <=? 70)); [apply IH; assumption |].
  discriminate.
Qed.

Lemma parseHexDigits_hexFixed width : forall n acc,
  0 <= n < 16 ^ Z.of_nat width ->
  parseHexDigits (hexFixed width n) acc = acc * 16 ^ Z.of_nat width + n.
Proof.
  induction width as [| w IH]; intros n acc Hn.
  - change (16 ^ Z.of_nat 0) with 1 in *. simpl. lia.
  - simpl hexFixed.
    rewrite Nat2Z.inj_succ, Z.pow_succ_r in * by lia.
    rewrite parseHexDigits_app by apply hexFixed_isHexDigit.
    rewrite IH.
    + cbn [parseHexDigits].
      rewrite hexValue_hexDigitChar by (apply Z.mod_pos_bound; lia).
      pose proof (Z.div_mod n 16 ltac:(lia)) as E.
      rewrite E at 3. ring.
    + split; [apply Z.div_pos; lia | apply Z.div_lt_upper_bound; lia].
Qed.

Lemma parseInt16_hexFixed (width : nat) (n : Z) :
  0 <= n < 16 ^ Z.of_nat width -> width <> O ->
  parseInt16 (hexFixed width n) = Some n.
Proof.
  intros Hn Hw. unfold parseInt16.
  pose proof (hexFixed_isHexDigit width n) as Hhex.
  pose proof (parseHexDigits_hexFixed width n 0 Hn) as Hp.
  pose proof (hexFixed_length width n) as Hlen.
  destruct (hexFixed width n) as [| ch rest]; [simpl in Hlen; lia |].
  simpl in Hhex. apply andb_prop in Hhex as [Hch _].
  unfold isHexDigit in Hch. rewrite Hp.
  unfold hexValue.
  destruct ((48 <=? ch) && (ch <=? 57)); [reflexivity |].
  destruct ((97 <=? ch) && (ch <=? 102)); [reflexivity |].
  destruct ((65 <=? ch) && (ch <=? 70)); [reflexivity | discriminate].
Qed.

(** ** One round of unescapeString reads only what lies at the cursor *)

Lemma charAt_app (pre l : jsstring) (i : nat) :
  charAt (pre ++ l) (length pre + i) = charAt l i.
Proof. unfold charAt. apply app_nth2_plus. Qed.

Lemma substring_app (pre l : jsstring) (a b : nat) :
  substring (pre ++ l) (length pre + a) (length pre + b) = substring l a b.
Proof.
  unfold substring.
  rewrite Nat.add_min_distr_l, Nat.add_max_distr_l.
  rewrite skipn_app.
  replace (length pre + Nat.min a b - length pre)%nat with (Nat.min a b) by lia.
  rewrite skipn_all2 by lia. simpl.
  f_equal. lia.
Qed.

Lemma ltb_add_l (k a b : nat) : (k + a <? k + b)%nat = (a <? b)%nat.
Proof.
  destruct (Nat.ltb_spec a b), (Nat.ltb_spec (k + a) (k + b)); lia || reflexivity.
Qed.

Lemma leb_add_l (k a b : nat) : (k + a <=? k + b)%nat = (a <=? b)%nat.
Proof.
  destruct (Nat.leb_spec a b), (Nat.leb_spec (k + a) (k + b)); lia || reflexivity.
Qed.

Lemma unescape_step_app (pre l : jsstring) (i : nat) :
  unescape_step (pre ++ l) (length pre + i)
  = advance (length pre) (unescape_step l i).
Proof.
  unfold unescape_step.
  rewrite length_app.
  replace (length pre + i + 1)%nat with (length pre + (i + 1))%nat by lia.
  replace (length pre + i + 3)%nat with (length pre + (i + 3))%nat by lia.
  replace (length pre + i + 2)%nat with (length pre + (i + 2))%nat by lia.
  replace (length pre + i + 4)%nat with (length pre + (i + 4))%nat by lia.
  rewrite !charAt_app, !ltb_add_l.
  destruct ((charAt l i =? BACKSLASH) && (i + 1 <? length l)%nat);
    [| reflexivity].
  repeat match goal with
         | |- context [if charAt l (i + 1) =? ?k then _ else _] =>
             destruct (charAt l (i + 1) =? k); [reflexivity |]
         end.
  destruct ((charAt l (i + 1) =? 117) || (charAt l (i + 1) =? 85)).
  - destruct (charAt l (i + 1) =? 85).
    + replace (length pre + (i + 2) + 8)%nat
        with (length pre + (i + 2 + 8))%nat by lia.
      rewrite leb_add_l, substring_app.
      destruct (i + 2 + 8 <=? length l)%nat; [| reflexivity].
      destruct (test_hex_plus _); [| reflexivity].
      destruct (fromCodePoint _); reflexivity.
    + replace (length pre + (i + 2) + 4)%nat
        with (length pre + (i + 2 + 4))%nat by lia.
      rewrite leb_add_l, substring_app.
      destruct (i + 2 + 4 <=? length l)%nat; [| reflexivity].
      destruct (test_hex_plus _); [| reflexivity].
      destruct (fromCodePoint _); reflexivity.
  - destruct (charAt l (i + 1) =? 120); [| reflexivity].
    rewrite substring_app.
    destruct (i + 3 <? length l)%nat; [| reflexivity].
    destruct (test_hex_2 _); reflexivity.
Qed.

(** ** Reading back one escape *)

Lemma unescape_step_u (hex rest : jsstring) :
  length hex = 4%nat -> forallb isHexDigit hex = true ->
  unescape_step (lit "\u" ++ hex ++ rest) 0
  = match fromCodePoint (parseInt16 hex) with
    | Normal s => Normal (s, 6%nat)
    | Throw e => Throw e
    end.
Proof.
  intros Hlen Hhex.
  destruct hex as [| h3 [| h2 [| h1 [| h0 [| ? ?]]]]]; try discriminate.
  change (lit "\u") with [BACKSLASH; 117].
  unfold unescape_step. cbn -[parseInt16 fromCodePoint forallb].
  unfold test_hex_plus. rewrite Hhex. reflexivity.
Qed.

Lemma unescape_step_x (hex rest : jsstring) :
  length hex = 2%nat -> forallb isHexDigit hex = true ->
  unescape_step (lit "\x" ++ hex ++ rest) 0
  = Normal (fromCharCode (parseInt16 hex), 4%nat).
Proof.
  intros Hlen Hhex.
  destruct hex as [| h1 [| h0 [| ? ?]]]; try discriminate.
  change (lit "\x") with [BACKSLASH; 120].
  unfold unescape_step. cbn -[parseInt16 fromCharCode forallb].
  unfold test_hex_2. rewrite Hhex. reflexivity.
Qed.

Lemma unescape_step_plain (ch : Z) (rest : jsstring) :
  ch <> BACKSLASH -> unescape_step (ch :: rest) 0 = Normal ([ch], 1%nat).
Proof.
  intros Hne. unfold unescape_step. cbn [charAt nth].
  destruct (Z.eqb_spec ch BACKSLASH); [contradiction | reflexivity].
Qed.

Lemma fromCodePoint_unit (u : Z) :
  is_code_unit u -> fromCodePoint (Some u) = Normal [u].
Proof.
  unfold is_code_unit, fromCodePoint. intros H.
  destruct (Z.ltb_spec u 0); [lia |].
  destruct (Z.ltb_spec 0x10FFFF u); [lia |].
  destruct (Z.leb_spec u 0xFFFF); [reflexivity | lia].
Qed.

Lemma padStart4_code_unit (ch : Z) :
  is_code_unit ch ->
  padStart 4 ZERO_CHAR (toString16 ch) = hexFixed 4 ch.
Proof.
  intros H. apply padStart_toString16; [| discriminate].
  unfold is_code_unit in H. change (16 ^ Z.of_nat 4) with 65536. lia.
Qed.

(** ** The unescape loop *)

Lemma unescape_loop_done (fuel : nat) (str : jsstring) (i : nat)
  (result : jsstring) :
  (length str <= i)%nat ->
  unescape_loop fuel str i result = Some (Normal result).
Proof.
  intros H. destruct fuel; simpl;
    destruct (Nat.ltb_spec i (length str)); lia || reflexivity.
Qed.

Lemma unescape_loop_round (fuel : nat) (str : jsstring) (i i' : nat)
  (result out : jsstring) :
  (i < length str)%nat ->
  unescape_step str i = Normal (out, i') ->
  unescape_loop (S fuel) str i result
  = unescape_loop fuel str i' (result ++ out).
Proof.
  intros Hi Hstep. simpl.
  destruct (Nat.ltb_spec i (length str)); [| lia].
  rewrite Hstep. reflexivity.
Qed.

(** Every round moves the cursor forward by at least one. *)
Lemma unescape_step_advances (str : jsstring) (i i' : nat) (out : jsstring) :
  unescape_step str i = Normal (out, i') -> (i < i')%nat.
Proof.
  unfold unescape_step.
  repeat match goal with
         | |- context [if ?b then _ else _] => destruct b
         | |- context [match fromCodePoint ?x with _ => _ end] =>
             destruct (fromCodePoint x)
         end;
    intros H; inversion H; lia.
Qed.

Lemma unescape_loop_total (fuel : nat) :
  forall (str : jsstring) (i : nat) (result : jsstring),
    (length str - i <= fuel)%nat ->
    unescape_loop fuel str i result <> None.
Proof.
  induction fuel as [| fuel IH]; intros str i result Hfuel.
  - rewrite unescape_loop_done by lia. discriminate.
  - simpl. destruct (Nat.ltb_spec i (length str)); [| discriminate].
    destruct (unescape_step str i) as [[out i'] | e] eqn:Hstep;
      [| discriminate].
    apply IH. apply unescape_step_advances in Hstep. lia.
Qed.

(** [unescapeString] always comes to an end: a string or an exception. *)
Lemma unescapeString_total (str : jsstring) : unescapeString str <> None.
Proof. unfold unescapeString. apply unescape_loop_total. lia. Qed.

(** More rounds than needed change nothing. *)
Lemma unescape_loop_fuel (fuel : nat) :
  forall (fuel' : nat) (str : jsstring) (i : nat) (result : jsstring),
    (length str - i <= fuel)%nat -> (fuel <= fuel')%nat ->
    unescape_loop fuel' str i result = unescape_loop fuel str i result.
Proof.
  induction fuel as [| fuel IH]; intros fuel' str i result Hfuel Hle.
  - rewrite !unescape_loop_done by lia. reflexivity.
  - destruct fuel' as [| fuel']; [lia |]. simpl.
    destruct (Nat.ltb_spec i (length str)); [| reflexivity].
    destruct (unescape_step str i) as [[out i'] | e] eqn:Hstep;
      [| reflexivity].
    apply IH; [| lia]. apply unescape_step_advances in Hstep. lia.
Qed.

(** ** Escaping, then unescaping *)

Section EscapeThenUnescape.

Variable style : EscapeStyle.

Lemma escape_fold (str : jsstring) :
  forall result,
    fold_left (fun result char => result ++ escape_char style char) str result
    = result ++ flat_map (escape_char style) str.
Proof.
  induction str as [| ch str IH]; intros result; simpl.
  - rewrite app_nil_r. reflexivity.
  - rewrite IH, <- app_assoc. reflexivity.
Qed.

Lemma escapeString_flat_map (str : jsstring) :
  escapeString str style = flat_map (escape_char style) str.
Proof. unfold escapeString. apply escape_fold. Qed.

Lemma escapeString_cons (ch : Z) (str : jsstring) :
  escapeString (ch :: str) style
  = escape_char style ch ++ escapeString str style.
Proof. rewrite !escapeString_flat_map. reflexivity. Qed.

Lemma escapeString_app (a b : jsstring) :
  escapeString (a ++ b) style = escapeString a style ++ escapeString b style.
Proof. rewrite !escapeString_flat_map. apply flat_map_app. Qed.

Lemma escape_char_nonempty (ch : Z) :
  (0 < length (escape_char style ch))%nat.
Proof.
  unfold escape_char.
  destruct style; cbn [style_eqb orb];
    repeat match goal with
           | |- context [if ?b then _ else _] => destruct b
           end; rewrite ?length_app; simpl; lia.
Qed.

(** One round reads back the escape of one code unit, whole. *)
Lemma unescape_step_escape_char (ch : Z) (rest : jsstring) :
  is_code_unit ch ->
  unescape_step (escape_char style ch ++ rest) 0
  = Normal ([ch], length (escape_char style ch)).
Proof.
  intros Hu. pose proof Hu as Hu'. unfold is_code_unit in Hu'.
  assert (U4 : unescape_step ((lit "\u" ++ hexFixed 4 ch) ++ rest) 0
               = Normal ([ch], length (lit "\u" ++ hexFixed 4 ch))).
  { rewrite <- app_assoc, unescape_step_u
      by (apply hexFixed_length || apply hexFixed_isHexDigit).
    rewrite parseInt16_hexFixed
      by (discriminate || (change (16 ^ Z.of_nat 4) with 65536; lia)).
    rewrite fromCodePoint_unit by assumption.
    rewrite length_app, hexFixed_length. reflexivity. }
  unfold escape_char.
  destruct (Z.eqb_spec ch BACKSLASH) as [-> | N1]; [reflexivity |].
  destruct (Z.eqb_spec ch NEWLINE) as [-> | N2]; [reflexivity |].
  destruct (Z.eqb_spec ch CARRIAGE_RETURN) as [-> | N3]; [reflexivity |].
  destruct (Z.eqb_spec ch TAB) as [-> | N4]; [reflexivity |].
  destruct (Z.eqb_spec ch BACKSPACE) as [-> | N5]; [reflexivity |].
  destruct (Z.eqb_spec ch FORM_FEED) as [-> | N6]; [reflexivity |].
  destruct (Z.eqb_spec ch DOUBLE_QUOTE) as [-> | N7]; [reflexivity |].
  destruct (Z.eqb_spec ch SINGLE_QUOTE) as [-> | N8];
    [destruct style; reflexivity |].
  destruct ((ch <? 32) || (126 <? ch));
    [| apply unescape_step_plain; assumption].
  destruct (Z.ltb_spec ch 0x10000) as [_ | ?]; [| lia].
  rewrite (padStart4_code_unit ch Hu).
  destruct style; cbn [style_eqb orb]; try exact U4.
  destruct (Z.ltb_spec ch 256) as [Hx | _]; [| exact U4].
  rewrite padStart_toString16
    by (discriminate || (change (16 ^ Z.of_nat 2) with 256; lia)).
  rewrite <- app_assoc, unescape_step_x
    by (apply hexFixed_length || apply hexFixed_isHexDigit).
  rewrite parseInt16_hexFixed
    by (discriminate || (change (16 ^ Z.of_nat 2) with 256; lia)).
  unfold fromCharCode. rewrite Z.mod_small by lia.
  rewrite length_app, hexFixed_length. reflexivity.
Qed.

(** Reading an escaped string back, from any cursor where it starts. *)
Lemma unescape_loop_escape (s : jsstring) :
  wf_string s ->
  forall (pre result : jsstring) (fuel : nat),
    (length (escapeString s style) <= fuel)%nat ->
    unescape_loop fuel (pre ++ escapeString s style) (length pre) result
    = Some (Normal (result ++ s)).
Proof.
  induction 1 as [| ch s Hch Hs IH]; intros pre result fuel Hfuel.
  - change (escapeString [] style) with (@nil Z).
    rewrite !app_nil_r. apply unescape_loop_done. lia.
  - rewrite escapeString_cons in *.
    pose proof (escape_char_nonempty ch) as Hne.
    rewrite length_app in Hfuel.
    destruct fuel as [| fuel]; [lia |].
    rewrite (unescape_loop_round fuel _ _
               (length (pre ++ escape_char style ch)) _ [ch]).
    + rewrite app_assoc, IH by lia.
      rewrite <- app_assoc. reflexivity.
    + rewrite !length_app. lia.
    + rewrite <- (Nat.add_0_r (length pre)) at 1.
      rewrite unescape_step_app, unescape_step_escape_char by assumption.
      rewrite length_app. reflexivity.
Qed.

Lemma unescape_escape (s : jsstring) :
  wf_string s ->
  unescapeString (escapeString s style) = Some (Normal s).
Proof.
  intros Hwf. unfold unescapeString.
  apply (unescape_loop_escape s Hwf [] []). lia.
Qed.

End EscapeThenUnescape.

(** ** Strings without a backslash, and plain printable strings *)

Lemma unescape_loop_no_backslash (s : jsstring) :
  Forall (fun ch => ch <> BACKSLASH) s ->
  forall (pre result : jsstring) (fuel : nat),
    (length s <= fuel)%nat ->
    unescape_loop fuel (pre ++ s) (length pre) result
    = Some (Normal (result ++ s)).
Proof.
  induction 1 as [| ch s Hch Hs IH]; intros pre result fuel Hfuel.
  - rewrite !app_nil_r. apply unescape_loop_done. lia.
  - simpl in Hfuel. destruct fuel as [| fuel]; [lia |].
    rewrite (unescape_loop_round fuel _ _ (length (pre ++ [ch])) _ [ch]).
    + change (ch :: s) with ([ch] ++ s).
      rewrite app_assoc, IH by lia.
      rewrite <- app_assoc. reflexivity.
    + rewrite length_app. simpl. lia.
    + rewrite <- (Nat.add_0_r (length pre)) at 1.
      rewrite unescape_step_app, unescape_step_plain by assumption.
      rewrite length_app. reflexivity.
Qed.

Lemma escape_char_plain (style : EscapeStyle) (ch : Z) :
  plain_char ch -> escape_char style ch = [ch].
Proof.
  unfold plain_char, printable, escape_char.
  unfold BACKSLASH, DOUBLE_QUOTE, SINGLE_QUOTE, NEWLINE, CARRIAGE_RETURN,
    TAB, BACKSPACE, FORM_FEED.
  intros (Hp & N1 & N2 & N3).
  repeat match goal with
         | |- context [ch =? ?k] => destruct (Z.eqb_spec ch k); [lia |]
         end.
  destruct (Z.ltb_spec ch 32); [lia |].
  destruct (Z.ltb_spec 126 ch); [lia |].
  reflexivity.
Qed.

Lemma escapeString_plain (s : jsstring) (style : EscapeStyle) :
  Forall plain_char s -> escapeString s style = s.
Proof.
  induction 1 as [| ch s Hch Hs IH]; [reflexivity |].
  rewrite escapeString_cons, IH, escape_char_plain by assumption.
  reflexivity.
Qed.

(** ** Characters beyond the Basic Multilingual Plane *)

Lemma utf16_beyond_BMP (cp : Z) :
  beyond_BMP cp -> utf16 cp = [high_surrogate cp; low_surrogate cp].
Proof.
  unfold beyond_BMP, utf16, fromCodePoint. intros H.
  destruct (Z.ltb_spec cp 0); [lia |].
  destruct (Z.ltb_spec 0x10FFFF cp); [lia |].
  destruct (Z.leb_spec cp 0xFFFF); [lia | reflexivity].
Qed.

Lemma surrogates_range (cp : Z) :
  beyond_BMP cp ->
  0xD800 <= high_surrogate cp <= 0xDBFF
  /\ 0xDC00 <= low_surrogate cp <= 0xDFFF.
Proof.
  unfold beyond_BMP, high_surrogate, low_surrogate. intros H.
  pose proof (Z.mod_pos_bound (cp - 0x10000) 0x400 ltac:(lia)).
  assert (0 <= (cp - 0x10000) / 0x400) by (apply Z.div_pos; lia).
  assert ((cp - 0x10000) / 0x400 < 0x400)
    by (apply Z.div_lt_upper_bound; lia).
  lia.
Qed.

Lemma utf16_wf (cp : Z) : beyond_BMP cp -> wf_string (utf16 cp).
Proof.
  intros H. rewrite utf16_beyond_BMP by assumption.
  destruct (surrogates_range cp H).
  repeat constructor; unfold is_code_unit; lia.
Qed.

(** ** The escaped text is printable *)

Lemma toHexDigits_printable (fuel : nat) :
  forall (n : Z) (acc : jsstring),
    0 <= n -> Forall printable acc -> Forall printable (toHexDigits fuel n acc).
Proof.
  induction fuel as [| fuel IH]; intros n acc Hn Hacc; simpl; [assumption |].
  destruct (Z.ltb_spec n 16).
  - constructor; [apply hexDigitChar_printable; lia | assumption].
  - apply IH; [apply Z.div_pos; lia |].
    constructor; [| assumption].
    apply hexDigitChar_printable, Z.mod_pos_bound. lia.
Qed.

Lemma toString16_printable (n : Z) : Forall printable (toString16 n).
Proof.
  unfold toString16. destruct (Z.ltb_spec n 0).
  - constructor; [unfold printable; lia |].
    apply toHexDigits_printable; [lia | constructor].
  - apply toHexDigits_printable; [lia | constructor].
Qed.

Lemma repeat_zero_printable (n : nat) : Forall printable (repeat ZERO_CHAR n).
Proof.
  induction n; simpl; constructor;
    [unfold printable, ZERO_CHAR; lia | assumption].
Qed.

Lemma escape_char_printable (style : EscapeStyle) (ch : Z) :
  Forall printable (escape_char style ch).
Proof.
  assert (P : forall k, 32 <= k <= 126 -> Forall printable [BACKSLASH; k]).
  { intros k Hk. constructor; [unfold printable, BACKSLASH; lia |].
    constructor; [exact Hk | constructor]. }
  assert (Q : forall k, (32 <=? k) && (k <=? 126) = true -> 32 <= k <= 126)
    by lia.
  unfold escape_char.
  destruct (ch =? BACKSLASH); [apply P, Q; reflexivity |].
  destruct (ch =? NEWLINE); [apply P, Q; reflexivity |].
  destruct (ch =? CARRIAGE_RETURN); [apply P, Q; reflexivity |].
  destruct (ch =? TAB); [apply P, Q; reflexivity |].
  destruct (ch =? BACKSPACE); [apply P, Q; reflexivity |].
  destruct (ch =? FORM_FEED); [apply P, Q; reflexivity |].
  destruct (ch =? DOUBLE_QUOTE); [apply P, Q; reflexivity |].
  destruct (Z.eqb_spec ch SINGLE_QUOTE) as [-> | _].
  { destruct (_ || _); [apply P, Q; reflexivity |].
    constructor; [apply Q; reflexivity | constructor]. }
  destruct (Z.ltb_spec ch 32); cbn [orb].
  2: destruct (Z.ltb_spec 126 ch); cbn [orb];
       [| constructor; [unfold printable; lia | constructor]].
  all: change (lit "\u") with [BACKSLASH; 117];
    change (lit "\U") with [BACKSLASH; 85];
    change (lit "\x") with [BACKSLASH; 120];
    destruct style; cbn [style_eqb orb];
    repeat match goal with
           | |- context [if ?b then _ else _] => destruct b
           end;
    repeat (apply Forall_app; split);
    first [ apply P, Q; reflexivity
          | apply toString16_printable
          | apply repeat_zero_printable ].
Qed.

Lemma escapeString_printable (str : jsstring) (style : EscapeStyle) :
  Forall printable (escapeString str style).
Proof.
  induction str as [| ch str IH]; [constructor |].
  rewrite escapeString_cons. apply Forall_app. split;
    [apply escape_char_printable | assumption].
Qed.

(** ** Counting *)

Lemma count_fold (str : jsstring) :
  forall count,
    fold_left (fun count char => if counted char then S count else count)
      str count
    = (count + length (filter counted str))%nat.
Proof.
  induction str as [| ch str IH]; intros count; simpl; [lia |].
  rewrite IH. destruct (counted ch); simpl; lia.
Qed.

Lemma countEscapedCharacters_filter (str : jsstring) :
  countEscapedCharacters str = length (filter counted str).
Proof. unfold countEscapedCharacters. rewrite count_fold. reflexivity. Qed.

(** A character is either copied or replaced by a backslash sequence, and
    the counter tells which, but for the single quote that json and
    javascript leave alone. *)
Lemma escape_char_shape (style : EscapeStyle) (ch : Z) :
  (escape_char style ch = [ch]
   /\ counted ch = (quote_left_alone style && (ch =? SINGLE_QUOTE)))
  \/ ((exists x rest, escape_char style ch = BACKSLASH :: x :: rest)
      /\ counted ch = true
      /\ quote_left_alone style && (ch =? SINGLE_QUOTE) = false).
Proof.
  unfold escape_char, counted.
  change (lit "\u") with [BACKSLASH; 117].
  change (lit "\U") with [BACKSLASH; 85].
  change (lit "\x") with [BACKSLASH; 120].
  destruct (Z.eqb_spec ch BACKSLASH) as [-> | N1];
    [right; destruct style; repeat split; eexists _, _; reflexivity |].
  destruct (Z.eqb_spec ch NEWLINE) as [-> | N2];
    [right; destruct style; repeat split; eexists _, _; reflexivity |].
  destruct (Z.eqb_spec ch CARRIAGE_RETURN) as [-> | N3];
    [right; destruct style; repeat split; eexists _, _; reflexivity |].
  destruct (Z.eqb_spec ch TAB) as [-> | N4];
    [right; destruct style; repeat split; eexists _, _; reflexivity |].
  destruct (Z.eqb_spec ch BACKSPACE) as [-> | N5];
    [right; destruct style; repeat split; eexists _, _; reflexivity |].
  destruct (Z.eqb_spec ch FORM_FEED) as [-> | N6];
    [right; destruct style; repeat split; eexists _, _; reflexivity |].
  destruct (Z.eqb_spec ch DOUBLE_QUOTE) as [-> | N7];
    [right; destruct style; repeat split; eexists _, _; reflexivity |].
  destruct (Z.eqb_spec ch SINGLE_QUOTE) as [-> | N8].
  { destruct style; cbn [style_eqb orb];
      [left | left | right | right]; repeat split;
      eexists _, _; reflexivity. }
  rewrite andb_false_r. cbn [orb].
  destruct ((ch <? 32) || (126 <? ch)); [right | left; split; reflexivity].
  split; [| split; reflexivity].
  destruct style; cbn [style_eqb orb];
    repeat match goal with
           | |- context [if ?b then _ else _] => destruct b
           end;
    eexists _, _; reflexivity.
Qed.

Lemma counted_emits (style : EscapeStyle) (ch : Z) :
  counted ch
  = negb (emits_itself style ch)
    || (quote_left_alone style && (ch =? SINGLE_QUOTE)).
Proof.
  unfold emits_itself.
  destruct (escape_char_shape style ch) as [[E C] | [(x & rest & E) [C Q]]];
    rewrite C.
  - destruct (list_eq_dec Z.eq_dec (escape_char style ch) [ch]);
      [reflexivity | contradiction].
  - destruct (list_eq_dec Z.eq_dec (escape_char style ch) [ch]) as [E' | _];
      [| reflexivity].
    rewrite E in E'. discriminate.
Qed.

Lemma altered_not_left_alone (style : EscapeStyle) (ch : Z) :
  negb (emits_itself style ch)
  && (quote_left_alone style && (ch =? SINGLE_QUOTE)) = false.
Proof.
  unfold emits_itself.
  destruct (escape_char_shape style ch) as [[E C] | [_ [_ Q]]].
  - destruct (list_eq_dec Z.eq_dec (escape_char style ch) [ch]);
      [reflexivity | contradiction].
  - rewrite Q. apply andb_false_r.
Qed.

(** ** Malformed escapes *)

Lemma malformed_in_range (str : jsstring) (i : nat) :
  malformed str i -> (i < length str)%nat.
Proof.
  intros [Hb Hlen | Hb Hlen _ | Hb Hlen _ _ | Hb Hlen _ _ | Hb Hlen _ _];
    lia.
Qed.

Lemma malformed_step (str : jsstring) (i : nat) :
  malformed str i ->
  unescape_step str i = Normal ([BACKSLASH], (i + 1)%nat).
Proof.
  intros H. unfold unescape_step.
  destruct H as [Hb Hlen | Hb Hlen Hl | Hb Hlen Hx Hr | Hb Hlen Hu Hr
                | Hb Hlen Hu Hr]; rewrite Hb.
  - destruct (Nat.ltb_spec (i + 1) (length str)); [lia |].
    rewrite andb_false_r. reflexivity.
  - destruct (Nat.ltb_spec (i + 1) (length str)); [| lia].
    unfold is_escape_letter in Hl.
    repeat (apply orb_false_elim in Hl; destruct Hl as [Hl ?]).
    cbn [andb Z.eqb BACKSLASH Pos.eqb].
    repeat match goal with
           | E : ?b = false |- context [?b] => rewrite E
           end.
    reflexivity.
  - destruct (Nat.ltb_spec (i + 1) (length str)); [| lia].
    rewrite Hx. cbn [andb orb Z.eqb BACKSLASH DOUBLE_QUOTE SINGLE_QUOTE Pos.eqb].
    unfold hex_run in Hr.
    replace (i + 2 + 2)%nat with (i + 4)%nat in Hr by lia.
    destruct (Nat.ltb_spec (i + 3) (length str)); [| reflexivity].
    destruct (Nat.leb_spec (i + 4) (length str)); [| lia].
    unfold test_hex_2. cbn [andb] in Hr. rewrite Hr, andb_false_r.
    reflexivity.
  - destruct (Nat.ltb_spec (i + 1) (length str)); [| lia].
    rewrite Hu. cbn [andb orb Z.eqb BACKSLASH DOUBLE_QUOTE SINGLE_QUOTE Pos.eqb].
    unfold hex_run in Hr.
    destruct (i + 2 + 4 <=? length str)%nat; [| reflexivity].
    unfold test_hex_plus. cbn [andb] in Hr. rewrite Hr, andb_false_r.
    reflexivity.
  - destruct (Nat.ltb_spec (i + 1) (length str)); [| lia].
    rewrite Hu. cbn [andb orb Z.eqb BACKSLASH DOUBLE_QUOTE SINGLE_QUOTE Pos.eqb].
    unfold hex_run in Hr.
    destruct (i + 2 + 8 <=? length str)%nat; [| reflexivity].
    unfold test_hex_plus. cbn [andb] in Hr. rewrite Hr, andb_false_r.
    reflexivity.
Qed.

(** The character after a malformed backslash is no backslash, so the
    next round copies it as it is. *)
Lemma malformed_next (str : jsstring) (i : nat) :
  malformed str i -> (i + 1 < length str)%nat ->
  unescape_step str (i + 1)
  = Normal ([charAt str (i + 1)], (i + 1 + 1)%nat).
Proof.
  intros H Hlen.
  assert (Hne : (charAt str (i + 1) =? BACKSLASH) = false).
  { destruct H as [_ Hl | _ _ Hl | _ _ Hx _ | _ _ Hu _ | _ _ Hu _].
    - lia.
    - unfold is_escape_letter in Hl.
      repeat (apply orb_false_elim in Hl; destruct Hl as [Hl ?]).
      assumption.
    - rewrite Hx. reflexivity.
    - rewrite Hu. reflexivity.
    - rewrite Hu. reflexivity. }
  unfold unescape_step. rewrite Hne. reflexivity.
Qed.

(** ** The hex forms that escapeString writes *)

Lemma escape_char_above_255 (style : EscapeStyle) (ch : Z) :
  is_code_unit ch -> 256 <= ch ->
  escape_char style ch = lit "\u" ++ hexFixed 4 ch.
Proof.
  intros Hu Hch. pose proof Hu as Hu'. unfold is_code_unit in Hu'.
  unfold escape_char.
  unfold BACKSLASH, DOUBLE_QUOTE, SINGLE_QUOTE, NEWLINE, CARRIAGE_RETURN,
    TAB, BACKSPACE, FORM_FEED.
  repeat match goal with
         | |- context [ch =? ?k] => destruct (Z.eqb_spec ch k); [lia |]
         end.
  destruct (Z.ltb_spec ch 32); [lia |].
  destruct (Z.ltb_spec 126 ch); [| lia].
  destruct (Z.ltb_spec ch 0x10000); [| lia].
  destruct (Z.ltb_spec ch 256); [lia |].
  rewrite (padStart4_code_unit ch Hu).
  destruct style; reflexivity.
Qed.

Lemma escape_char_c_below_256 (ch : Z) :
  0 <= ch < 256 -> ch < 32 \/ 126 < ch ->
  ~ In ch [BACKSPACE; TAB; NEWLINE; FORM_FEED; CARRIAGE_RETURN] ->
  escape_char style_c ch = lit "\x" ++ hexFixed 2 ch.
Proof.
  intros Hu Hnp Hnamed. unfold escape_char.
  assert (ch <> BACKSPACE /\ ch <> TAB /\ ch <> NEWLINE /\ ch <> FORM_FEED
          /\ ch <> CARRIAGE_RETURN) as (N1 & N2 & N3 & N4 & N5).
  { cbn [In] in Hnamed. repeat split; intros E; apply Hnamed; auto 6. }
  unfold BACKSLASH, DOUBLE_QUOTE, SINGLE_QUOTE, NEWLINE, CARRIAGE_RETURN,
    TAB, BACKSPACE, FORM_FEED in *.
  repeat match goal with
         | |- context [ch =? ?k] => destruct (Z.eqb_spec ch k); [lia |]
         end.
  replace ((ch <? 32) || (126 <? ch)) with true by lia.
  cbn [style_eqb orb].
  destruct (Z.ltb_spec ch 256); [| lia].
  rewrite padStart_toString16
    by (discriminate || (change (16 ^ Z.of_nat 2) with 256; lia)).
  reflexivity.
Qed.

Lemma escapeString_beyond_BMP (style : EscapeStyle) (cp : Z) :
  beyond_BMP cp ->
  escapeString (utf16 cp) style
  = (lit "\u" ++ hexFixed 4 (high_surrogate cp))
    ++ (lit "\u" ++ hexFixed 4 (low_surrogate cp)).
Proof.
  intros H. rewrite utf16_beyond_BMP by assumption.
  destruct (surrogates_range cp H) as [Hh Hl].
  rewrite !escapeString_cons.
  rewrite !escape_char_above_255 by (unfold is_code_unit; lia).
  change (escapeString [] style) with (@nil Z).
  rewrite app_nil_r. reflexivity.
Qed.

(** ** A long escape above the last code point *)

Lemma unescape_step_U (hex rest : jsstring) :
  length hex = 8%nat -> forallb isHexDigit hex = true ->
  unescape_step (lit "\U" ++ hex ++ rest) 0
  = match fromCodePoint (parseInt16 hex) with
    | Normal s => Normal (s, 10%nat)
    | Throw e => Throw e
    end.
Proof.
  intros Hlen Hhex.
  destruct hex as [| h7 [| h6 [| h5 [| h4 [| h3 [| h2 [| h1 [| h0 [| ? ?]]]]]]]]];
    try discriminate.
  change (lit "\U") with [BACKSLASH; 85].
  unfold unescape_step. cbn -[parseInt16 fromCodePoint forallb].
  unfold test_hex_plus. rewrite Hhex. reflexivity.
Qed.

Lemma unescape_U_out_of_range (n : Z) (rest : jsstring) :
  0x10FFFF < n < 0x100000000 ->
  unescapeString (lit "\U" ++ hexFixed 8 n ++ rest) = Some (Throw RangeError).
Proof.
  intros Hn. unfold unescapeString.
  rewrite !length_app, hexFixed_length.
  change (length (lit "\U") + (8 + length rest))%nat
    with (S (9 + length rest)).
  cbn [unescape_loop].
  rewrite unescape_step_U
    by (apply hexFixed_length || apply hexFixed_isHexDigit).
  rewrite parseInt16_hexFixed
    by (discriminate || (change (16 ^ Z.of_nat 8) with 0x100000000; lia)).
  unfold fromCodePoint.
  destruct (Z.ltb_spec n 0); [lia |].
  destruct (Z.ltb_spec 0x10FFFF n); [| lia].
  rewrite length_app, length_app, hexFixed_length. reflexivity.
Qed.

(** ** Counting by two disjoint tests *)

Lemma filter_orb_length {A : Type} (f g : A -> bool) (l : list A) :
  (forall x, f x && g x = false) ->
  length (filter (fun x => f x || g x) l)
  = (length (filter f l) + length (filter g l))%nat.
Proof.
  intros Hfg. induction l as [| x l IH]; [reflexivity |].
  simpl. specialize (Hfg x).
  destruct (f x), (g x); try discriminate; simpl; lia.
Qed.

Lemma filter_ext_length {A : Type} (f g : A -> bool) (l : list A) :
  (forall x, f x = g x) -> length (filter f l) = length (filter g l).
Proof. intros H. rewrite (filter_ext f g H). reflexivity. Qed.

Lemma filter_quote_length (q : bool) (l : jsstring) :
  length (filter (fun ch => q && (ch =? SINGLE_QUOTE)) l)
  = if q then count_occ Z.eq_dec l SINGLE_QUOTE else O.
Proof.
  induction l as [| ch l IH]; [destruct q; reflexivity |].
  destruct q; cbn [andb filter count_occ] in *.
  - destruct (Z.eqb_spec ch SINGLE_QUOTE) as [-> | Hne].
    + destruct (Z.eq_dec SINGLE_QUOTE SINGLE_QUOTE); [| contradiction].
      simpl. rewrite IH. reflexivity.
    + destruct (Z.eq_dec ch SINGLE_QUOTE); [contradiction | assumption].
  - assumption.
Qed.

(** ** Sample runs *)

Example escape_backslash :
  escapeString (lit "\") style_c = lit "\\".
Proof. reflexivity. Qed.

Example unescape_backslash :
  unescapeString (lit "\\") = Some (Normal (lit "\")).
Proof. reflexivity. Qed.

Example escape_controls :
  escapeString [NEWLINE; CARRIAGE_RETURN; TAB; BACKSPACE; FORM_FEED] style_json
  = lit "\n\r\t\b\f".
Proof. reflexivity. Qed.

Example escape_e_acute_json :
  escapeString [233] style_json = lit "\u00e9".
Proof. reflexivity. Qed.

Example escape_e_acute_c :
  escapeString [233] style_c = lit "\xe9".
Proof. reflexivity. Qed.

Example escape_grin_json :
  escapeString (utf16 0x1F600) style_json = lit "\ud83d\ude00".
Proof. reflexivity. Qed.

Example unescape_grin_json :
  unescapeString (lit "\ud83d\ude00") = Some (Normal (utf16 0x1F600)).
Proof. reflexivity. Qed.

Example unescape_long_escape :
  unescapeString (lit "\U0001f600") = Some (Normal (utf16 0x1F600)).
Proof. reflexivity. Qed.

Example unescape_trailing_backslash :
  unescapeString (lit "ab\") = Some (Normal (lit "ab\")).
Proof. reflexivity. Qed.

Example unescape_short_u :
  unescapeString (lit "\u12") = Some (Normal (lit "\u12")).
Proof. reflexivity. Qed.

Example empty_input :
  escapeString [] style_python = []
  /\ unescapeString [] = Some (Normal [])
  /\ countEscapedCharacters [] = O.
Proof. repeat split. Qed.

Example count_mixed :
  countEscapedCharacters (lit "it's" ++ [NEWLINE; 233]) = 3%nat.
Proof. reflexivity. Qed.

(** * The claims *)

(** C1 (code bug).  The claim: with style python every code point from
    0x10000 on comes out as one [\U] escape with 8 hex digits, so that
    U+1F600 gives [\U0001f600].  The code reads the string one UTF-16
    unit at a time, so the test [code < 0x10000] never fails: U+1F600,
    stored as the units D83D DE00, comes out as the two escapes
    [\ud83d\ude00], and not as [\U0001f600]. *)
Theorem escape_python_beyond_BMP_splits :
  utf16 0x1F600 = [0xD83D; 0xDE00]
  /\ escapeString (utf16 0x1F600) style_python = lit "\ud83d\ude00"
  /\ escapeString (utf16 0x1F600) style_python <> lit "\U0001f600".
Proof. split; [reflexivity |]. split; [reflexivity | discriminate]. Qed.

(** C2 (code bug).  The claim: no operation throws, and unescapeString
    returns a result even for [\U] followed by 8 hex digits of any value.
    The code passes the value to [String.fromCodePoint], which throws a
    RangeError above 0x10FFFF: on [\U00110000] the call ends in that
    exception. *)
Theorem unescape_long_escape_throws :
  unescapeString (lit "\U00110000") = Some (Throw RangeError).
Proof. reflexivity. Qed.

(** C3 (corrected).  The claim says that for some code point beyond the
    Basic Multilingual Plane the json round trip loses it.  On the code
    none does: for every code point [cp] in 0x10000..0x10FFFF, held as its
    surrogate pair, unescapeString (escapeString cp json) is [cp] again.
    Each half is written as its own [\uXXXX] and read back as the same
    unit, and the two units side by side are the character. *)
Theorem json_roundtrip_beyond_BMP (cp : Z) :
  beyond_BMP cp ->
  unescapeString (escapeString (utf16 cp) style_json)
  = Some (Normal (utf16 cp)).
Proof. intros H. apply unescape_escape, utf16_wf, H. Qed.

Lemma json_roundtrip_beyond_BMP_witness :
  beyond_BMP 0x1F600
  /\ unescapeString (escapeString (utf16 0x1F600) style_json)
     = Some (Normal (utf16 0x1F600)).
Proof.
  assert (H : beyond_BMP 0x1F600) by (unfold beyond_BMP; lia).
  split; [exact H | apply (json_roundtrip_beyond_BMP 0x1F600 H)].
Defined.

(** C3, the claim as stated is false: no code point beyond the Basic
    Multilingual Plane is lost by the json round trip. *)
Lemma json_roundtrip_loses_nothing :
  ~ (exists cp : Z,
        beyond_BMP cp
        /\ unescapeString (escapeString (utf16 cp) style_json)
           <> Some (Normal (utf16 cp))).
Proof.
  intros (cp & H & Hne). apply Hne. apply unescape_escape, utf16_wf, H.
Qed.

(** C4.  For every string of UTF-16 code units and every style,
    unescapeString (escapeString s style) is [s]. *)
Theorem unescape_escape_roundtrip (s : jsstring) (style : EscapeStyle) :
  wf_string s ->
  unescapeString (escapeString s style) = Some (Normal s).
Proof. apply unescape_escape. Qed.

Lemma unescape_escape_roundtrip_witness :
  wf_string [104; 10; 233; 39; 92; 0; 0xD83D; 0xDE00; 65535]
  /\ unescapeString
       (escapeString [104; 10; 233; 39; 92; 0; 0xD83D; 0xDE00; 65535] style_c)
     = Some (Normal [104; 10; 233; 39; 92; 0; 0xD83D; 0xDE00; 65535]).
Proof.
  assert (H : wf_string [104; 10; 233; 39; 92; 0; 0xD83D; 0xDE00; 65535])
    by (repeat constructor; unfold is_code_unit; lia).
  split; [exact H | apply (unescape_escape_roundtrip _ style_c H)].
Defined.

(** C5 (corrected).  For every string and style, countEscapedCharacters
    is the number of UTF-16 code units of the string that escapeString
    replaces by something else, plus, for json and javascript, the number
    of single quotes.  A character beyond the Basic Multilingual Plane is
    two such units and adds 2 to the count. *)
Theorem countEscapedCharacters_spec (s : jsstring) (style : EscapeStyle) :
  countEscapedCharacters s
  = (length (filter (fun ch => negb (emits_itself style ch)) s)
     + (if quote_left_alone style
        then count_occ Z.eq_dec s SINGLE_QUOTE
        else O))%nat
  /\ (forall (before after : jsstring) (cp : Z),
         beyond_BMP cp ->
         countEscapedCharacters (before ++ utf16 cp ++ after)
         = (countEscapedCharacters before + 2
            + countEscapedCharacters after)%nat).
Proof.
  split.
  - rewrite countEscapedCharacters_filter.
    rewrite (filter_ext_length counted _ s (counted_emits style)).
    rewrite filter_orb_length by apply altered_not_left_alone.
    rewrite filter_quote_length. reflexivity.
  - intros before after cp H.
    rewrite utf16_beyond_BMP by assumption.
    destruct (surrogates_range cp H) as [Hh Hl].
    rewrite !countEscapedCharacters_filter, !filter_app, !length_app.
    assert (C : forall u, 126 < u -> counted u = true).
    { intros u Hu. unfold counted.
      destruct (Z.ltb_spec 126 u); [apply orb_true_r | lia]. }
    cbn [filter]. rewrite !C by lia. cbn [length]. lia.
Qed.

Lemma countEscapedCharacters_spec_witness :
  beyond_BMP 0x1F600
  /\ countEscapedCharacters (lit "a'" ++ utf16 0x1F600 ++ lit "b")
     = (countEscapedCharacters (lit "a'") + 2
        + countEscapedCharacters (lit "b"))%nat.
Proof.
  assert (H : beyond_BMP 0x1F600) by (unfold beyond_BMP; lia).
  split; [exact H |].
  apply (proj2 (countEscapedCharacters_spec [] style_json)
           (lit "a'") (lit "b") 0x1F600 H).
Defined.

(** C5, the claim as stated is false when a character is a code point:
    the string that holds the one character U+1F600 has one character
    that escapeString replaces and no single quote, yet its count is 2. *)
Lemma count_on_code_points_fails :
  ~ (forall (s : jsstring) (style : EscapeStyle),
        countEscapedCharacters s
        = (altered_characters style s
           + (if quote_left_alone style
              then count_occ Z.eq_dec s SINGLE_QUOTE
              else O))%nat).
Proof.
  intros H. specialize (H (utf16 0x1F600) style_python).
  assert (C : countEscapedCharacters (utf16 0x1F600) = 2%nat) by reflexivity.
  assert (A : altered_characters style_python (utf16 0x1F600) = 1%nat)
    by reflexivity.
  rewrite C, A in H. discriminate.
Qed.

(** C6.  For every string of printable ASCII characters (32..126) other
    than backslash, double quote and single quote, and every style,
    unescapeString (escapeString s style) is [s]. *)
Theorem plain_roundtrip (s : jsstring) (style : EscapeStyle) :
  Forall plain_char s ->
  unescapeString (escapeString s style) = Some (Normal s).
Proof.
  intros H. rewrite escapeString_plain by assumption.
  unfold unescapeString.
  apply (unescape_loop_no_backslash s) with (pre := []) (result := []);
    [| lia].
  apply Forall_impl with (2 := H). intros ch (_ & Hne & _). exact Hne.
Qed.

Lemma plain_roundtrip_witness :
  Forall plain_char (lit "Hello, world! 0-9 {a/b}")
  /\ unescapeString (escapeString (lit "Hello, world! 0-9 {a/b}") style_json)
     = Some (Normal (lit "Hello, world! 0-9 {a/b}")).
Proof.
  assert (H : Forall plain_char (lit "Hello, world! 0-9 {a/b}")).
  { repeat constructor; unfold printable; try lia; discriminate. }
  split; [exact H | apply (plain_roundtrip _ style_json H)].
Defined.

(** C7.  In unescapeString a backslash that starts no escape (it is the
    last character; or an unknown letter follows; or [x], [u] or [U]
    follows with too few characters left or with a character that is no
    hex digit) adds exactly the backslash to the result and moves the
    cursor by one; the loop goes on from the next character, which is
    copied as it stands.  So [\q] and [\xZZ] come back unchanged. *)
Theorem malformed_escape_passthrough (str : jsstring) (i : nat) :
  malformed str i ->
  unescape_step str i = Normal ([BACKSLASH], (i + 1)%nat)
  /\ (forall fuel result,
         unescape_loop (S fuel) str i result
         = unescape_loop fuel str (i + 1) (result ++ [BACKSLASH]))
  /\ ((i + 1 < length str)%nat ->
      unescape_step str (i + 1)
      = Normal ([charAt str (i + 1)], (i + 1 + 1)%nat))
  /\ unescapeString (lit "\q") = Some (Normal (lit "\q"))
  /\ unescapeString (lit "\xZZ") = Some (Normal (lit "\xZZ")).
Proof.
  intros H. split; [apply malformed_step, H |].
  split.
  { intros fuel result. apply unescape_loop_round.
    - apply malformed_in_range, H.
    - apply malformed_step, H. }
  split; [apply malformed_next, H |].
  split; reflexivity.
Qed.

Lemma malformed_escape_passthrough_witness :
  malformed (lit "a\u12G4") 1
  /\ unescape_step (lit "a\u12G4") 1 = Normal ([BACKSLASH], 2%nat).
Proof.
  assert (H : malformed (lit "a\u12G4") 1)
    by (apply broken_u; [reflexivity | simpl; lia | reflexivity ..]).
  split; [exact H | apply (proj1 (malformed_escape_passthrough _ 1 H))].
Defined.

(** C8 (corrected).  For style c, escapeString writes the five named
    control characters backspace, tab, newline, form feed and carriage
    return as [\b], [\t], [\n], [\f] and [\r]; every other non-printable
    character with scalar value below 256 as [\x] and 2 zero-padded
    lowercase hex digits, so that 233 gives [\xe9]; every character with
    scalar value from 256 to 0xFFFF as [\u] and 4 lowercase hex digits;
    and every character from 0x10000 on as two such [\u] escapes, one for
    each half of its surrogate pair. *)
Theorem escape_c_hex_forms (before after : jsstring) :
  escapeString (before ++ BACKSPACE :: after) style_c
  = escapeString before style_c ++ lit "\b" ++ escapeString after style_c
  /\ escapeString (before ++ TAB :: after) style_c
     = escapeString before style_c ++ lit "\t" ++ escapeString after style_c
  /\ escapeString (before ++ NEWLINE :: after) style_c
     = escapeString before style_c ++ lit "\n" ++ escapeString after style_c
  /\ escapeString (before ++ FORM_FEED :: after) style_c
     = escapeString before style_c ++ lit "\f" ++ escapeString after style_c
  /\ escapeString (before ++ CARRIAGE_RETURN :: after) style_c
     = escapeString before style_c ++ lit "\r" ++ escapeString after style_c
  /\ (forall ch : Z,
         0 <= ch < 256 -> ch < 32 \/ 126 < ch ->
         ~ In ch [BACKSPACE; TAB; NEWLINE; FORM_FEED; CARRIAGE_RETURN] ->
         escapeString (before ++ ch :: after) style_c
         = escapeString before style_c
           ++ (lit "\x" ++ hexFixed 2 ch) ++ escapeString after style_c)
  /\ (forall ch : Z,
         256 <= ch <= 0xFFFF ->
         escapeString (before ++ ch :: after) style_c
         = escapeString before style_c
           ++ (lit "\u" ++ hexFixed 4 ch) ++ escapeString after style_c)
  /\ (forall cp : Z,
         beyond_BMP cp ->
         escapeString (before ++ utf16 cp ++ after) style_c
         = escapeString before style_c
           ++ ((lit "\u" ++ hexFixed 4 (high_surrogate cp))
               ++ (lit "\u" ++ hexFixed 4 (low_surrogate cp)))
           ++ escapeString after style_c)
  /\ escapeString [233] style_c = lit "\xe9".
Proof.
  repeat (split; [rewrite escapeString_app, escapeString_cons; reflexivity |]).
  split; [| split; [| split; [| reflexivity]]].
  - intros ch Hu Hnp Hnamed.
    rewrite escapeString_app, escapeString_cons.
    rewrite escape_char_c_below_256 by assumption. reflexivity.
  - intros ch Hch.
    rewrite escapeString_app, escapeString_cons.
    rewrite escape_char_above_255 by (unfold is_code_unit; lia).
    reflexivity.
  - intros cp Hcp.
    rewrite !escapeString_app, escapeString_beyond_BMP by assumption.
    reflexivity.
Qed.

Lemma escape_c_hex_forms_witness :
  (0 <= 127 < 256 /\ (127 < 32 \/ 126 < 127)
   /\ ~ In 127 [BACKSPACE; TAB; NEWLINE; FORM_FEED; CARRIAGE_RETURN]
   /\ escapeString (lit "a" ++ 127 :: lit "b") style_c
      = escapeString (lit "a") style_c
        ++ (lit "\x" ++ hexFixed 2 127) ++ escapeString (lit "b") style_c)
  /\ (256 <= 0x20AC <= 0xFFFF
      /\ escapeString (lit "a" ++ 0x20AC :: lit "b") style_c
         = escapeString (lit "a") style_c
           ++ (lit "\u" ++ hexFixed 4 0x20AC)
           ++ escapeString (lit "b") style_c)
  /\ (beyond_BMP 0x1F600
      /\ escapeString (lit "a" ++ utf16 0x1F600 ++ lit "b") style_c
         = escapeString (lit "a") style_c
           ++ ((lit "\u" ++ hexFixed 4 (high_surrogate 0x1F600))
               ++ (lit "\u" ++ hexFixed 4 (low_surrogate 0x1F600)))
           ++ escapeString (lit "b") style_c).
Proof.
  pose proof (escape_c_hex_forms (lit "a") (lit "b"))
    as (_ & _ & _ & _ & _ & Hx & Hu & Hp & _).
  assert (H1 : 0 <= 127 < 256) by lia.
  assert (H2 : 127 < 32 \/ 126 < 127) by lia.
  assert (H3 : ~ In 127 [BACKSPACE; TAB; NEWLINE; FORM_FEED; CARRIAGE_RETURN]).
  { cbn [In]. unfold BACKSPACE, TAB, NEWLINE, FORM_FEED, CARRIAGE_RETURN.
    lia. }
  assert (H4 : 256 <= 0x20AC <= 0xFFFF) by lia.
  assert (H5 : beyond_BMP 0x1F600) by (unfold beyond_BMP; lia).
  split; [| split].
  - split; [exact H1 |]. split; [exact H2 |]. split; [exact H3 |].
    apply (Hx 127 H1 H2 H3).
  - split; [exact H4 | apply (Hu 0x20AC H4)].
  - split; [exact H5 | apply (Hp 0x1F600 H5)].
Defined.

(** C8, the claim as stated is false in both halves.  Not every
    non-printable character below 256 gets the [\x] form in style c: the
    newline (10) is written [\n].  And not every character from 256 on is
    written as [\u] and 4 hex digits: U+1F600 is written as the twelve
    characters [\ud83d\ude00]. *)
Lemma escape_c_claim_fails :
  ~ (forall ch : Z,
        is_code_unit ch -> ch < 32 \/ 126 < ch -> ch < 256 ->
        escapeString [ch] style_c = lit "\x" ++ hexFixed 2 ch)
  /\ ~ (forall cp : Z,
           256 <= cp <= 0x10FFFF ->
           exists hex : jsstring,
             length hex = 4%nat
             /\ escapeString (utf16 cp) style_c = lit "\u" ++ hex).
Proof.
  split.
  - intros H.
    specialize (H NEWLINE).
    assert (E : escapeString [NEWLINE] style_c = lit "\n") by reflexivity.
    rewrite E in H.
    assert (D : lit "\n" <> lit "\x" ++ hexFixed 2 NEWLINE) by discriminate.
    apply D, H; unfold is_code_unit, NEWLINE; lia.
  - intros H.
    destruct (H 0x1F600 ltac:(lia)) as (hex & Hlen & E).
    assert (E' : escapeString (utf16 0x1F600) style_c = lit "\ud83d\ude00")
      by reflexivity.
    rewrite E' in E. apply (f_equal (@length Z)) in E.
    rewrite length_app, Hlen in E. discriminate.
Qed.

(** C9.  For every string and style, every character of the string
    returned by escapeString is printable ASCII (32..126). *)
Theorem escapeString_output_printable (str : jsstring) (style : EscapeStyle) :
  Forall (fun ch => 32 <= ch <= 126) (escapeString str style).
Proof. apply (escapeString_printable str style). Qed.

(** C10.  A single quote is copied for json and javascript and written
    [\'] for python and c, wherever it stands in the string. *)
Theorem escape_single_quote (before after : jsstring) :
  escapeString (before ++ SINGLE_QUOTE :: after) style_json
  = escapeString before style_json
    ++ [SINGLE_QUOTE] ++ escapeString after style_json
  /\ escapeString (before ++ SINGLE_QUOTE :: after) style_javascript
     = escapeString before style_javascript
       ++ [SINGLE_QUOTE] ++ escapeString after style_javascript
  /\ escapeString (before ++ SINGLE_QUOTE :: after) style_python
     = escapeString before style_python
       ++ lit "\'" ++ escapeString after style_python
  /\ escapeString (before ++ SINGLE_QUOTE :: after) style_c
     = escapeString before style_c
       ++ lit "\'" ++ escapeString after style_c
  /\ escapeString (lit "'") style_json = lit "'"
  /\ escapeString (lit "'") style_javascript = lit "'"
  /\ escapeString (lit "'") style_python = lit "\'"
  /\ escapeString (lit "'") style_c = lit "\'".
Proof.
  rewrite !escapeString_app, !escapeString_cons.
  repeat split.
Qed.

(** * Further properties of the three functions *)

(** ** The unescape loop, seen from a cursor and from an accumulator *)

Lemma prepend_app (a b : jsstring) (o : option (completion jsstring)) :
  prepend a (prepend b o) = prepend (a ++ b) o.
Proof.
  destruct o as [[r | e] |]; simpl; [| reflexivity ..].
  rewrite app_assoc. reflexivity.
Qed.

Lemma prepend_nil (o : option (completion jsstring)) : prepend [] o = o.
Proof. destruct o as [[r | e] |]; reflexivity. Qed.

(** What is already in [result] only stands in front of what the loop adds. *)
Lemma unescape_loop_result (fuel : nat) :
  forall (str : jsstring) (i : nat) (result : jsstring),
    unescape_loop fuel str i result
    = prepend result (unescape_loop fuel str i []).
Proof.
  induction fuel as [| fuel IH]; intros str i result; simpl.
  - destruct (i <? length str)%nat; simpl; [reflexivity |].
    rewrite app_nil_r. reflexivity.
  - destruct (i <? length str)%nat; simpl;
      [| rewrite app_nil_r; reflexivity].
    destruct (unescape_step str i) as [[out i'] | e]; [| reflexivity].
    rewrite (IH str i' (result ++ out)), (IH str i' out).
    apply eq_sym, prepend_app.
Qed.

(** The loop does not look behind the cursor. *)
Lemma unescape_loop_app (fuel : nat) :
  forall (pre l : jsstring) (i : nat) (result : jsstring),
    unescape_loop fuel (pre ++ l) (length pre + i) result
    = unescape_loop fuel l i result.
Proof.
  induction fuel as [| fuel IH]; intros pre l i result; simpl;
    rewrite length_app, ltb_add_l.
  - reflexivity.
  - destruct (i <? length l)%nat; [| reflexivity].
    rewrite unescape_step_app.
    destruct (unescape_step l i) as [[out i'] | e]; simpl; [| reflexivity].
    apply IH.
Qed.

(** After a first round that reads all of [a], the rest is unescaped on
    its own. *)
Lemma unescape_first_round (a rest out : jsstring) :
  unescape_step (a ++ rest) 0 = Normal (out, length a) ->
  unescapeString (a ++ rest) = prepend out (unescapeString rest).
Proof.
  intros Hstep. unfold unescapeString.
  assert (Ha : (0 < length a)%nat)
    by (apply unescape_step_advances in Hstep; exact Hstep).
  rewrite length_app.
  destruct (length a + length rest)%nat as [| fuel] eqn:Hfuel; [lia |].
  rewrite (unescape_loop_round fuel _ 0 (length a) [] out);
    [| rewrite length_app; lia | exact Hstep].
  rewrite <- (Nat.add_0_r (length a)) at 1.
  rewrite unescape_loop_app. cbn [app].
  rewrite unescape_loop_result. f_equal.
  apply unescape_loop_fuel; lia.
Qed.

Lemma unescape_first_round_throws (str : jsstring) (e : exn) :
  unescape_step str 0 = Throw e -> unescapeString str = Some (Throw e).
Proof.
  intros Hstep. unfold unescapeString.
  destruct str as [| ch str]; [discriminate |].
  cbn [length unescape_loop Nat.ltb Nat.leb]. rewrite Hstep. reflexivity.
Qed.

(** ** escapeString: composition, styles, lengths *)

(** X1.  escapeString works character by character: the escape of a
    concatenation is the concatenation of the escapes, in every style. *)
Theorem escapeString_concat (a b : jsstring) (style : EscapeStyle) :
  escapeString (a ++ b) style = escapeString a style ++ escapeString b style.
Proof. apply escapeString_app. Qed.

(** X2.  The styles json and javascript escape every string alike. *)
Theorem escapeString_json_javascript (str : jsstring) :
  escapeString str style_json = escapeString str style_javascript.
Proof.
  rewrite !escapeString_flat_map. apply flat_map_ext. intros ch.
  unfold escape_char. reflexivity.
Qed.

Lemma escape_char_python_json (ch : Z) :
  is_code_unit ch -> ch <> SINGLE_QUOTE ->
  escape_char style_python ch = escape_char style_json ch.
Proof.
  unfold is_code_unit, escape_char. intros Hu Hq.
  cbn [style_eqb orb].
  destruct (Z.eqb_spec ch SINGLE_QUOTE); [contradiction |].
  destruct (Z.ltb_spec ch 0x10000); [reflexivity | lia].
Qed.

(** X3.  On a string of 16-bit units without a single quote, the style
    python writes what json writes: the eight-digit form is never used,
    because no unit reaches 0x10000. *)
Theorem escapeString_python_json (str : jsstring) :
  wf_string str -> Forall (fun ch => ch <> SINGLE_QUOTE) str ->
  escapeString str style_python = escapeString str style_json.
Proof.
  intros Hwf Hq. rewrite !escapeString_flat_map.
  induction str as [| ch str IH]; [reflexivity |].
  inversion Hwf; inversion Hq; subst. simpl.
  rewrite IH, escape_char_python_json by assumption. reflexivity.
Qed.

Lemma escapeString_python_json_witness :
  wf_string [104; 233; 0xD83D; 0xDE00]
  /\ Forall (fun ch => ch <> SINGLE_QUOTE) [104; 233; 0xD83D; 0xDE00]
  /\ escapeString [104; 233; 0xD83D; 0xDE00] style_python
     = escapeString [104; 233; 0xD83D; 0xDE00] style_json.
Proof.
  assert (H1 : wf_string [104; 233; 0xD83D; 0xDE00])
    by (repeat constructor; unfold is_code_unit; lia).
  assert (H2 : Forall (fun ch => ch <> SINGLE_QUOTE) [104; 233; 0xD83D; 0xDE00])
    by (repeat constructor; discriminate).
  split; [exact H1 |]. split; [exact H2 |].
  apply (escapeString_python_json _ H1 H2).
Defined.

Lemma escape_char_length_max (style : EscapeStyle) (ch : Z) :
  is_code_unit ch -> (length (escape_char style ch) <= 6)%nat.
Proof.
  intros Hu. pose proof Hu as Hu'. unfold is_code_unit in Hu'.
  unfold escape_char.
  destruct (ch <? 0x10000) eqn:E; [| lia].
  rewrite (padStart4_code_unit ch Hu).
  destruct (Z.ltb_spec ch 256).
  - rewrite padStart_toString16
      by (discriminate || (change (16 ^ Z.of_nat 2) with 256; lia)).
    destruct style; cbn [style_eqb orb];
      repeat match goal with
             | |- context [if ?b then _ else _] => destruct b
             end; simpl; lia.
  - destruct style; cbn [style_eqb orb];
      repeat match goal with
             | |- context [if ?b then _ else _] => destruct b
             end; simpl; lia.
Qed.

(** X4.  The escaped string is at least as long as the input and, for a
    string of 16-bit units, at most six times as long (the longest escape
    is a backslash, u and four digits). *)
Theorem escapeString_length_bounds (str : jsstring) (style : EscapeStyle) :
  wf_string str ->
  (length str <= length (escapeString str style) <= 6 * length str)%nat.
Proof.
  induction 1 as [| ch str Hch Hstr IH]; [simpl; lia |].
  rewrite escapeString_cons, length_app.
  pose proof (escape_char_nonempty style ch).
  pose proof (escape_char_length_max style ch Hch).
  simpl length. lia.
Qed.

Lemma escapeString_length_bounds_witness :
  wf_string [0; 65; 65535]
  /\ (length [0; 65; 65535]%Z
      <= length (escapeString [0; 65; 65535]%Z style_json)
      <= 6 * length [0; 65; 65535]%Z)%nat.
Proof.
  assert (H : wf_string [0; 65; 65535])
    by (repeat constructor; unfold is_code_unit; lia).
  split; [exact H | apply (escapeString_length_bounds _ style_json H)].
Defined.

Lemma escape_length_count (str : jsstring) (style : EscapeStyle) :
  (length str + countEscapedCharacters str
   <= length (escapeString str style)
      + (if quote_left_alone style
         then count_occ Z.eq_dec str SINGLE_QUOTE
         else O))%nat.
Proof.
  rewrite countEscapedCharacters_filter.
  induction str as [| ch str IH]; [destruct (quote_left_alone style); simpl; lia |].
  rewrite escapeString_cons, length_app. cbn [filter count_occ length].
  destruct (escape_char_shape style ch) as [[E C] | [(x & rest & E) [C Q]]];
    rewrite E, C; cbn [length].
  - destruct (quote_left_alone style); cbn [andb] in *.
    + destruct (Z.eqb_spec ch SINGLE_QUOTE), (Z.eq_dec ch SINGLE_QUOTE);
        try contradiction; cbn [length]; lia.
    + lia.
  - destruct (quote_left_alone style); cbn [andb] in *.
    + destruct (Z.eq_dec ch SINGLE_QUOTE) as [-> | _];
        [discriminate | lia].
    + lia.
Qed.

(** X5.  Every character that countEscapedCharacters counts makes the
    escaped string longer, but for the single quotes of json and
    javascript: the output is at least as long as the input plus the
    count, less those quotes. *)
Theorem escapeString_length_count (str : jsstring) (style : EscapeStyle) :
  (length str + countEscapedCharacters str
   <= length (escapeString str style)
      + (if quote_left_alone style
         then count_occ Z.eq_dec str SINGLE_QUOTE
         else O))%nat.
Proof. apply escape_length_count. Qed.

(** X6.  Two different strings of 16-bit units never have the same
    escape. *)
Theorem escapeString_injective (s1 s2 : jsstring) (style : EscapeStyle) :
  wf_string s1 -> wf_string s2 ->
  escapeString s1 style = escapeString s2 style -> s1 = s2.
Proof.
  intros H1 H2 E.
  pose proof (unescape_escape style s1 H1) as R1.
  pose proof (unescape_escape style s2 H2) as R2.
  rewrite E in R1. rewrite R1 in R2. inversion R2. reflexivity.
Qed.

Lemma escapeString_injective_witness :
  wf_string [10] /\ wf_string [10]
  /\ escapeString [10] style_c = escapeString [10] style_c
  /\ [10] = [10].
Proof.
  assert (H : wf_string [10])
    by (repeat constructor; unfold is_code_unit; lia).
  split; [exact H |]. split; [exact H |]. split; [reflexivity |].
  apply (escapeString_injective [10] [10] style_c H H eq_refl).
Defined.

(** ** unescapeString: what it returns and when it throws *)

(** X7.  The while loop of unescapeString always ends, within
    [str.length] rounds: allowing more rounds changes nothing, and the
    call ends in a string or an exception. *)
Theorem unescapeString_terminates (str : jsstring) (fuel : nat) :
  (length str <= fuel)%nat ->
  unescape_loop fuel str 0 [] = unescapeString str
  /\ unescapeString str <> None.
Proof.
  intros H. split; [| apply unescapeString_total].
  unfold unescapeString. apply unescape_loop_fuel; lia.
Qed.

Lemma unescapeString_terminates_witness :
  (length (lit "a\n\q\") <= 100)%nat
  /\ unescape_loop 100 (lit "a\n\q\") 0 []
     = unescapeString (lit "a\n\q\").
Proof.
  assert (H : (length (lit "a\n\q\") <= 100)%nat) by (simpl; lia).
  split; [exact H | apply (proj1 (unescapeString_terminates _ 100 H))].
Defined.

(** X8.  A string without a backslash comes back from unescapeString
    unchanged. *)
Theorem unescapeString_no_backslash (str : jsstring) :
  Forall (fun ch => ch <> BACKSLASH) str ->
  unescapeString str = Some (Normal str).
Proof.
  intros H. unfold unescapeString.
  apply (unescape_loop_no_backslash str H [] []). lia.
Qed.

Lemma unescapeString_no_backslash_witness :
  Forall (fun ch => ch <> BACKSLASH) (lit "it's 100% 'plain' text" ++ [233; 10])
  /\ unescapeString (lit "it's 100% 'plain' text" ++ [233; 10])
     = Some (Normal (lit "it's 100% 'plain' text" ++ [233; 10])).
Proof.
  assert (H : Forall (fun ch => ch <> BACKSLASH)
                (lit "it's 100% 'plain' text" ++ [233; 10]))
    by (repeat constructor; discriminate).
  split; [exact H | apply (unescapeString_no_backslash _ H)].
Defined.

Lemma fromCodePoint_units (code : option Z) (s : jsstring) :
  fromCodePoint code = Normal s ->
  (length s <= 2)%nat /\ wf_string s.
Proof.
  unfold fromCodePoint. destruct code as [cp |]; [| discriminate].
  destruct (Z.ltb_spec cp 0); [discriminate |].
  destruct (Z.ltb_spec 0x10FFFF cp); [discriminate |]. cbn [orb].
  destruct (Z.leb_spec cp 0xFFFF); intros E; inversion E; subst; clear E.
  - split; [simpl; lia |]. repeat constructor; unfold is_code_unit; lia.
  - split; [simpl; lia |].
    destruct (surrogates_range cp) as [Hh Hl]; [unfold beyond_BMP; lia |].
    unfold high_surrogate, low_surrogate in *.
    repeat constructor; unfold is_code_unit; lia.
Qed.

Lemma charAt_code_unit (str : jsstring) (i : nat) :
  wf_string str -> is_code_unit (charAt str i).
Proof.
  intros H. unfold charAt.
  destruct (nth_in_or_default i str 0) as [Hin | ->].
  - unfold wf_string in H. rewrite Forall_forall in H. apply H, Hin.
  - unfold is_code_unit. lia.
Qed.

Ltac plain :=
  let E := fresh "E" in
  intros E; inversion E; subst;
  match goal with P : _ |- _ => exact P end.

(** One round adds no more characters than it reads, stays inside the
    string, and adds 16-bit units only. *)
Lemma unescape_step_out (str : jsstring) (i i' : nat) (out : jsstring) :
  (i < length str)%nat ->
  unescape_step str i = Normal (out, i') ->
  (length out <= i' - i)%nat /\ (i' <= length str)%nat
  /\ (wf_string str -> wf_string out).
Proof.
  intros Hi. unfold unescape_step.
  assert (W : forall ch, wf_string str -> is_code_unit ch -> wf_string [ch])
    by (intros; constructor; [assumption | constructor]).
  assert (K : forall k, 0 <= k < 65536 -> is_code_unit k)
    by (intros; assumption).
  pose proof (charAt_code_unit str i) as Hc.
  pose (plain_case :=
          (length [charAt str i] <= i + 1 - i)%nat /\ (i + 1 <= length str)%nat
          /\ (wf_string str -> wf_string [charAt str i])).
  assert (P : plain_case)
    by (unfold plain_case; simpl; repeat split; try lia; auto).
  destruct ((charAt str i =? BACKSLASH) && (i + 1 <? length str)%nat) eqn:G.
  2: plain.
  apply andb_prop in G as [_ G]. apply Nat.ltb_lt in G.
  assert (Q : forall k, 0 <= k < 65536 ->
            Normal ([k], (i + 2)%nat) = Normal (out, i') ->
            (length out <= i' - i)%nat /\ (i' <= length str)%nat
            /\ (wf_string str -> wf_string out)).
  { intros k Hk E; inversion E; subst. simpl. repeat split; try lia; auto. }
  repeat match goal with
         | |- context [if charAt str (i + 1) =? ?k then _ else _] =>
             destruct (charAt str (i + 1) =? k);
             [apply Q;
              unfold BACKSLASH, NEWLINE, CARRIAGE_RETURN, TAB, BACKSPACE,
                FORM_FEED, DOUBLE_QUOTE, SINGLE_QUOTE; lia |]
         end.
  assert (L : forall n, (i + 2 + n <= length str)%nat ->
            match fromCodePoint (parseInt16 (substring str (i + 2) (i + 2 + n)))
            with
            | Normal s => Normal (s, (i + 2 + n)%nat)
            | Throw e => Throw e
            end = Normal (out, i') ->
            (length out <= i' - i)%nat /\ (i' <= length str)%nat
            /\ (wf_string str -> wf_string out)).
  { intros n Hn. destruct (fromCodePoint _) as [s |] eqn:F; [| discriminate].
    apply fromCodePoint_units in F as [F1 F2].
    intros E; inversion E; subst. repeat split; try lia; auto. }
  destruct ((charAt str (i + 1) =? 117) || (charAt str (i + 1) =? 85)).
  - destruct (charAt str (i + 1) =? 85).
    + destruct (Nat.leb_spec (i + 2 + 8) (length str)); [| plain].
      destruct (test_hex_plus _); [apply L; assumption | plain].
    + destruct (Nat.leb_spec (i + 2 + 4) (length str)); [| plain].
      destruct (test_hex_plus _); [apply L; assumption | plain].
  - destruct (charAt str (i + 1) =? 120); [| plain].
    destruct (Nat.ltb_spec (i + 3) (length str)); [| plain].
    destruct (test_hex_2 _); [| plain].
    destruct (parseInt16 _) as [n |]; cbn [fromCharCode];
      intros E; inversion E; subst; simpl; repeat split; try lia;
      intros; apply W; auto; apply K;
      [apply Z.mod_pos_bound; lia | lia].
Qed.

Lemma unescape_loop_out (fuel : nat) :
  forall (str : jsstring) (i : nat) (result r : jsstring),
    (i <= length str)%nat ->
    unescape_loop fuel str i result = Some (Normal r) ->
    (length r + i <= length result + length str)%nat
    /\ (wf_string str -> wf_string result -> wf_string r).
Proof.
  induction fuel as [| fuel IH]; intros str i result r Hi; simpl;
    destruct (Nat.ltb_spec i (length str)) as [Hlt | Hge];
    try discriminate;
    try (intros E; inversion E; subst; split; [lia | auto]).
  destruct (unescape_step str i) as [[out i'] | e] eqn:Hstep;
    [| discriminate].
  destruct (unescape_step_out str i i' out Hlt Hstep) as (H1 & H2 & H3).
  pose proof (unescape_step_advances str i i' out Hstep) as Hadv.
  intros Hloop. apply IH in Hloop as [L W]; [| assumption].
  rewrite length_app in L. split; [lia |].
  intros Hs Hr. apply W; [assumption |].
  apply Forall_app. split; [assumption | apply H3, Hs].
Qed.

(** X9.  unescapeString never returns more characters than it was given. *)
Theorem unescapeString_length (str r : jsstring) :
  unescapeString str = Some (Normal r) -> (length r <= length str)%nat.
Proof.
  unfold unescapeString. intros H.
  apply unescape_loop_out in H as [H _]; simpl in *; lia.
Qed.

Lemma unescapeString_length_witness :
  unescapeString (lit "a\n\U0001f600\q") = Some (Normal (lit "a" ++ [10; 0xD83D; 0xDE00] ++ lit "\q"))
  /\ (length (lit "a" ++ [10; 0xD83D; 0xDE00]%Z ++ lit "\q")
      <= length (lit "a\n\U0001f600\q"))%nat.
Proof.
  assert (H : unescapeString (lit "a\n\U0001f600\q")
              = Some (Normal (lit "a" ++ [10; 0xD83D; 0xDE00] ++ lit "\q")))
    by reflexivity.
  split; [exact H | apply (unescapeString_length _ _ H)].
Defined.

(** X10.  Given a string of 16-bit units, unescapeString returns one:
    every decoded value is a unit, also after [\x], [\u] and [\U]. *)
Theorem unescapeString_wf (str r : jsstring) :
  wf_string str -> unescapeString str = Some (Normal r) -> wf_string r.
Proof.
  unfold unescapeString. intros Hwf H.
  apply unescape_loop_out in H as [_ H]; [| lia].
  apply H; [assumption | constructor].
Qed.

Lemma unescapeString_wf_witness :
  wf_string (lit "\xff\U0010ffff\uD800")
  /\ unescapeString (lit "\xff\U0010ffff\uD800")
     = Some (Normal [255; 0xDBFF; 0xDFFF; 0xD800])
  /\ wf_string [255; 0xDBFF; 0xDFFF; 0xD800].
Proof.
  assert (H1 : wf_string (lit "\xff\U0010ffff\uD800"))
    by (repeat constructor; unfold is_code_unit; simpl; lia).
  assert (H2 : unescapeString (lit "\xff\U0010ffff\uD800")
               = Some (Normal [255; 0xDBFF; 0xDFFF; 0xD800])) by reflexivity.
  split; [exact H1 |]. split; [exact H2 |].
  apply (unescapeString_wf _ _ H1 H2).
Defined.

Lemma substring_length (str : jsstring) (a b : nat) :
  (a <= b)%nat -> (b <= length str)%nat ->
  length (substring str a b) = (b - a)%nat.
Proof.
  intros Hab Hb. unfold substring.
  rewrite length_firstn, length_skipn. lia.
Qed.

Lemma hexValue_isHexDigit (ch : Z) :
  isHexDigit ch = true -> exists v, hexValue ch = Some v /\ 0 <= v < 16.
Proof.
  unfold isHexDigit, hexValue. intros H.
  destruct ((48 <=? ch) && (ch <=? 57)) eqn:A; [eexists; split; [reflexivity | lia] |].
  destruct ((97 <=? ch) && (ch <=? 102)) eqn:B; [eexists; split; [reflexivity | lia] |].
  destruct ((65 <=? ch) && (ch <=? 70)) eqn:C; [eexists; split; [reflexivity | lia] |].
  discriminate.
Qed.

(** The value of [n] hex digits is below [16^n]. *)
Lemma parseHexDigits_bound (hex : jsstring) :
  forallb isHexDigit hex = true ->
  forall acc, 0 <= acc ->
    acc * 16 ^ Z.of_nat (length hex) <= parseHexDigits hex acc
    < (acc + 1) * 16 ^ Z.of_nat (length hex).
Proof.
  induction hex as [| ch hex IH]; intros Hhex acc Hacc.
  - simpl. lia.
  - simpl in Hhex. apply andb_prop in Hhex as [Hch Hhex].
    destruct (hexValue_isHexDigit ch Hch) as (v & Hv & Hr).
    cbn [parseHexDigits length]. rewrite Hv.
    rewrite Nat2Z.inj_succ, Z.pow_succ_r by lia.
    specialize (IH Hhex (acc * 16 + v) ltac:(lia)).
    assert (0 < 16 ^ Z.of_nat (length hex)) by (apply Z.pow_pos_nonneg; lia).
    nia.
Qed.

Lemma parseInt16_hex (hex : jsstring) :
  hex <> [] -> forallb isHexDigit hex = true ->
  parseInt16 hex = Some (parseHexDigits hex 0)
  /\ 0 <= parseHexDigits hex 0 < 16 ^ Z.of_nat (length hex).
Proof.
  intros Hne Hhex. split.
  - destruct hex as [| ch hex]; [contradiction |].
    simpl in Hhex. apply andb_prop in Hhex as [Hch _].
    destruct (hexValue_isHexDigit ch Hch) as (v & Hv & _).
    unfold parseInt16. rewrite Hv. reflexivity.
  - pose proof (parseHexDigits_bound hex Hhex 0 ltac:(lia)). lia.
Qed.

(** Only the eight-digit escape can throw. *)
Lemma unescape_step_throws (str : jsstring) (i : nat) (e : exn) :
  unescape_step str i = Throw e ->
  (i + 1 < length str)%nat /\ charAt str (i + 1) = LETTER_U.
Proof.
  unfold unescape_step.
  destruct ((charAt str i =? BACKSLASH) && (i + 1 <? length str)%nat) eqn:G;
    [| discriminate].
  apply andb_prop in G as [_ G]. apply Nat.ltb_lt in G.
  repeat match goal with
         | |- context [if charAt str (i + 1) =? ?k then _ else _] =>
             destruct (charAt str (i + 1) =? k); [discriminate |]
         end.
  destruct (Z.eqb_spec (charAt str (i + 1)) 85) as [EU | _];
    [intros _; split; assumption |].
  rewrite orb_false_r.
  destruct (charAt str (i + 1) =? 117).
  - destruct (Nat.leb_spec (i + 2 + 4) (length str)); [| discriminate].
    destruct (test_hex_plus _) eqn:T; [| discriminate].
    unfold test_hex_plus in T. apply andb_prop in T as [_ T].
    pose proof (substring_length str (i + 2) (i + 2 + 4)
                  ltac:(lia) ltac:(lia)) as Hlen.
    destruct (parseInt16_hex _ ltac:(intros E; rewrite E in Hlen; simpl in Hlen; lia) T)
      as [Hp Hr].
    rewrite Hlen in Hr. replace (i + 2 + 4 - (i + 2))%nat with 4%nat in Hr by lia.
    change (16 ^ Z.of_nat 4) with 65536 in Hr.
    rewrite Hp, fromCodePoint_unit by exact Hr. discriminate.
  - destruct (charAt str (i + 1) =? 120); [| discriminate].
    destruct (i + 3 <? length str)%nat; [| discriminate].
    destruct (test_hex_2 _); discriminate.
Qed.

Lemma unescape_loop_no_throw (str : jsstring) :
  Forall (fun ch => ch <> LETTER_U) str ->
  forall (fuel i : nat) (result : jsstring) (e : exn),
    unescape_loop fuel str i result <> Some (Throw e).
Proof.
  intros HU. induction fuel as [| fuel IH]; intros i result e; simpl;
    destruct (i <? length str)%nat; try discriminate.
  destruct (unescape_step str i) as [[out i'] | e'] eqn:Hstep; [apply IH |].
  apply unescape_step_throws in Hstep as [Hlen Hch].
  exfalso. rewrite Forall_forall in HU.
  apply (HU (charAt str (i + 1))); [| exact Hch].
  unfold charAt. apply nth_In. exact Hlen.
Qed.

(** X11.  Only the eight-digit escape can make unescapeString throw: a
    string without the letter U is always unescaped to a string. *)
Theorem unescapeString_no_U (str : jsstring) :
  Forall (fun ch => ch <> LETTER_U) str ->
  exists r, unescapeString str = Some (Normal r).
Proof.
  intros HU.
  pose proof (unescapeString_total str) as Htot.
  pose proof (unescape_loop_no_throw str HU (length str) 0 []) as Hno.
  fold (unescapeString str) in Hno.
  destruct (unescapeString str) as [[r | e] |].
  - exists r. reflexivity.
  - exfalso. apply (Hno e). reflexivity.
  - contradiction.
Qed.

Lemma unescapeString_no_U_witness :
  Forall (fun ch => ch <> LETTER_U) (lit "a\xZZ\u12\")
  /\ exists r, unescapeString (lit "a\xZZ\u12\") = Some (Normal r).
Proof.
  assert (H : Forall (fun ch => ch <> LETTER_U) (lit "a\xZZ\u12\"))
    by (repeat constructor; discriminate).
  split; [exact H | apply (unescapeString_no_U _ H)].
Defined.

(** ** Decoding the hex escapes *)

(** X12.  A backslash, [u] and any four hex digits, in either case, are
    read as the one unit of that value, and what follows is unescaped on
    its own; this escape never throws. *)
Theorem unescapeString_u_escape (hex rest : jsstring) :
  length hex = 4%nat -> forallb isHexDigit hex = true ->
  unescapeString (lit "\u" ++ hex ++ rest)
  = prepend [parseHexDigits hex 0] (unescapeString rest)
  /\ is_code_unit (parseHexDigits hex 0).
Proof.
  intros Hlen Hhex.
  destruct (parseInt16_hex hex) as [Hp Hr];
    [intros E; rewrite E in Hlen; discriminate | assumption |].
  rewrite Hlen in Hr. change (16 ^ Z.of_nat 4) with 65536 in Hr.
  split; [| exact Hr].
  rewrite app_assoc. apply unescape_first_round.
  rewrite <- app_assoc, unescape_step_u by assumption.
  rewrite Hp, fromCodePoint_unit by exact Hr.
  rewrite length_app, Hlen. reflexivity.
Qed.

Lemma unescapeString_u_escape_witness :
  length (lit "00E9") = 4%nat /\ forallb isHexDigit (lit "00E9") = true
  /\ unescapeString (lit "\u" ++ lit "00E9" ++ lit "!")
     = prepend [parseHexDigits (lit "00E9") 0] (unescapeString (lit "!")).
Proof.
  split; [reflexivity |]. split; [reflexivity |].
  apply (proj1 (unescapeString_u_escape (lit "00E9") (lit "!")
                  eq_refl eq_refl)).
Defined.

(** X13.  A backslash, [x] and any two hex digits are read as the one
    unit of that value, below 256. *)
Theorem unescapeString_x_escape (hex rest : jsstring) :
  length hex = 2%nat -> forallb isHexDigit hex = true ->
  unescapeString (lit "\x" ++ hex ++ rest)
  = prepend [parseHexDigits hex 0] (unescapeString rest)
  /\ 0 <= parseHexDigits hex 0 < 256.
Proof.
  intros Hlen Hhex.
  destruct (parseInt16_hex hex) as [Hp Hr];
    [intros E; rewrite E in Hlen; discriminate | assumption |].
  rewrite Hlen in Hr. change (16 ^ Z.of_nat 2) with 256 in Hr.
  split; [| exact Hr].
  rewrite app_assoc. apply unescape_first_round.
  rewrite <- app_assoc, unescape_step_x by assumption.
  rewrite Hp. unfold fromCharCode. rewrite Z.mod_small by lia.
  rewrite length_app, Hlen. reflexivity.
Qed.

Lemma unescapeString_x_escape_witness :
  length (lit "7F") = 2%nat /\ forallb isHexDigit (lit "7F") = true
  /\ unescapeString (lit "\x" ++ lit "7F" ++ lit "\n")
     = prepend [parseHexDigits (lit "7F") 0] (unescapeString (lit "\n")).
Proof.
  split; [reflexivity |]. split; [reflexivity |].
  apply (proj1 (unescapeString_x_escape (lit "7F") (lit "\n")
                  eq_refl eq_refl)).
Defined.

(** X14.  A backslash, [U] and eight hex digits: up to 0x10FFFF the value
    is read as that code point, one unit or a surrogate pair, and what
    follows is unescaped on its own; above 0x10FFFF the call throws
    RangeError, whatever follows. *)
Theorem unescapeString_U_escape (hex rest : jsstring) :
  length hex = 8%nat -> forallb isHexDigit hex = true ->
  unescapeString (lit "\U" ++ hex ++ rest)
  = if parseHexDigits hex 0 <=? 0x10FFFF
    then prepend (utf16 (parseHexDigits hex 0)) (unescapeString rest)
    else Some (Throw RangeError).
Proof.
  intros Hlen Hhex.
  destruct (parseInt16_hex hex) as [Hp Hr];
    [intros E; rewrite E in Hlen; discriminate | assumption |].
  pose proof (unescape_step_U hex rest Hlen Hhex) as Hstep.
  rewrite Hp in Hstep. unfold utf16.
  unfold fromCodePoint in *.
  destruct (Z.ltb_spec (parseHexDigits hex 0) 0); [lia |].
  destruct (Z.leb_spec (parseHexDigits hex 0) 0x10FFFF);
    destruct (Z.ltb_spec 0x10FFFF (parseHexDigits hex 0)); try lia;
    cbn [orb] in *.
  - rewrite app_assoc. apply unescape_first_round.
    rewrite <- app_assoc, Hstep, length_app, Hlen.
    destruct (parseHexDigits hex 0 <=? 0xFFFF); reflexivity.
  - apply unescape_first_round_throws. exact Hstep.
Qed.

Lemma unescapeString_U_escape_witness :
  length (lit "0001F600") = 8%nat
  /\ forallb isHexDigit (lit "0001F600") = true
  /\ unescapeString (lit "\U" ++ lit "0001F600" ++ lit "!")
     = if parseHexDigits (lit "0001F600") 0 <=? 0x10FFFF
       then prepend (utf16 (parseHexDigits (lit "0001F600") 0))
              (unescapeString (lit "!"))
       else Some (Throw RangeError).
Proof.
  split; [reflexivity |]. split; [reflexivity |].
  apply (unescapeString_U_escape (lit "0001F600") (lit "!") eq_refl eq_refl).
Defined.

(** ** Escaped text inside other text *)

Lemma unescape_escaped_prefix (style : EscapeStyle) (s : jsstring) :
  wf_string s ->
  forall rest,
    unescapeString (escapeString s style ++ rest)
    = prepend s (unescapeString rest).
Proof.
  induction 1 as [| ch s Hch Hs IH]; intros rest.
  - change (escapeString [] style) with (@nil Z). cbn [app].
    rewrite prepend_nil. reflexivity.
  - rewrite escapeString_cons, <- app_assoc.
    rewrite (unescape_first_round _ _ [ch])
      by (apply unescape_step_escape_char; assumption).
    rewrite IH, prepend_app. reflexivity.
Qed.

(** X15.  An escaped string followed by any text is unescaped to the
    original string followed by the unescaped text: the decoder stops
    reading an escape where escapeString ended it. *)
Theorem unescapeString_escaped_prefix (s rest : jsstring)
  (style : EscapeStyle) :
  wf_string s ->
  unescapeString (escapeString s style ++ rest)
  = prepend s (unescapeString rest).
Proof. intros H. apply unescape_escaped_prefix, H. Qed.

Lemma unescapeString_escaped_prefix_witness :
  wf_string [1; 233]
  /\ unescapeString (escapeString [1; 233] style_c ++ lit "ff\t")
     = prepend [1; 233] (unescapeString (lit "ff\t")).
Proof.
  assert (H : wf_string [1; 233])
    by (repeat constructor; unfold is_code_unit; lia).
  split; [exact H | apply (unescapeString_escaped_prefix _ _ style_c H)].
Defined.

Lemma printable_code_unit (s : jsstring) :
  Forall printable s -> wf_string s.
Proof.
  apply Forall_impl. unfold printable, is_code_unit. lia.
Qed.

(** X16.  Escaped text can be escaped again, in any style, and unescaping
    gives the first escape back: the output of escapeString is itself a
    string that round-trips, whatever the input was. *)
Theorem escape_twice_unescape (str : jsstring) (inner outer : EscapeStyle) :
  unescapeString (escapeString (escapeString str inner) outer)
  = Some (Normal (escapeString str inner)).
Proof.
  apply unescape_escape, printable_code_unit, escapeString_printable.
Qed.

(** ** countEscapedCharacters *)

Lemma filter_length_le {A : Type} (f : A -> bool) (l : list A) :
  (length (filter f l) <= length l)%nat.
Proof.
  induction l as [| x l IH]; simpl; [lia |].
  destruct (f x); simpl; lia.
Qed.

(** X17.  The count of a concatenation is the sum of the counts, and no
    count exceeds the length of the string. *)
Theorem countEscapedCharacters_concat (a b : jsstring) :
  countEscapedCharacters (a ++ b)
  = (countEscapedCharacters a + countEscapedCharacters b)%nat
  /\ (countEscapedCharacters a <= length a)%nat.
Proof.
  rewrite !countEscapedCharacters_filter, filter_app, length_app.
  split; [reflexivity | apply filter_length_le].
Qed.

Lemma counted_false_plain (style : EscapeStyle) (ch : Z) :
  counted ch = false -> escape_char style ch = [ch] /\ ch <> BACKSLASH.
Proof.
  intros C. split.
  - destruct (escape_char_shape style ch) as [[E _] | [_ [C' _]]];
      [exact E | congruence].
  - intros ->. discriminate.
Qed.

(** X18.  A count of zero means there is nothing to escape or unescape:
    escapeString returns the string as it is, in every style, and so does
    unescapeString. *)
Theorem count_zero_unchanged (str : jsstring) (style : EscapeStyle) :
  countEscapedCharacters str = O ->
  escapeString str style = str /\ unescapeString str = Some (Normal str).
Proof.
  rewrite countEscapedCharacters_filter. intros H.
  assert (HF : Forall (fun ch => counted ch = false) str).
  { induction str as [| ch str IH]; [constructor |].
    simpl in H. destruct (counted ch) eqn:C; [discriminate |].
    constructor; [exact C | apply IH, H]. }
  clear H. split.
  - induction HF as [| ch str Hch _ IH]; [reflexivity |].
    rewrite escapeString_cons, IH.
    rewrite (proj1 (counted_false_plain style ch Hch)). reflexivity.
  - unfold unescapeString.
    apply (unescape_loop_no_backslash str) with (pre := []) (result := []);
      [| lia].
    apply Forall_impl with (2 := HF).
    intros ch Hch. apply (counted_false_plain style ch Hch).
Qed.

Lemma count_zero_unchanged_witness :
  countEscapedCharacters (lit "plain text, 100%") = O
  /\ escapeString (lit "plain text, 100%") style_python
     = lit "plain text, 100%".
Proof.
  assert (H : countEscapedCharacters (lit "plain text, 100%") = O)
    by reflexivity.
  split; [exact H | apply (proj1 (count_zero_unchanged _ style_python H))].
Defined.

(** X19.  For python and c, which escape the single quote too, the
    converse holds: if escapeString returns the string unchanged, the
    count is zero. *)
Theorem unchanged_count_zero (str : jsstring) (style : EscapeStyle) :
  quote_left_alone style = false ->
  escapeString str style = str ->
  countEscapedCharacters str = O.
Proof.
  intros Hq E.
  pose proof (escape_length_count str style) as L.
  rewrite Hq, E in L. lia.
Qed.

Lemma unchanged_count_zero_witness :
  quote_left_alone style_c = false
  /\ escapeString (lit "a-z") style_c = lit "a-z"
  /\ countEscapedCharacters (lit "a-z") = O.
Proof.
  split; [reflexivity |]. split; [reflexivity |].
  apply (unchanged_count_zero (lit "a-z") style_c eq_refl eq_refl).
Defined.
